(** * mmworkbench.dialogue: rules, dialogue manager and responder

    A shallow embedding of [src/mmworkbench/dialogue.py] and the properties
    of its rule matching, rule ordering, handler registration and response
    building.

    Python values are embedded as a small universe [value]; exceptions are
    the [Raise] outcome of [result]; the two mutable objects of the module
    (the manager and the responder) are threaded explicitly, and an
    operation that can raise after it has mutated its object returns the
    object next to its outcome. *)

From Stdlib Require Import ZArith String Ascii List Sorted Permutation Lia.
From stdpp Require Import gmap strings list fin_maps.

Set Warnings "-register-all".

Open Scope string_scope.
Open Scope Z_scope.
Open Scope list_scope.

(** ** Python values *)

Module Py.

(** The values that reach the module: [None], integers, strings, the four
    built-in collections and dictionaries.  [VAttrDict] is an instance of a
    [dict] subclass that also answers attribute access from its items (the
    usual attribute-dictionary idiom); a plain [VDict] has items only. *)
Inductive value : Type :=
| VNone
| VInt (n : Z)
| VStr (s : string)
| VTuple (items : list value)
| VList (items : list value)
| VSet (items : list value)
| VFrozenset (items : list value)
| VDict (items : list (value * value))
| VAttrDict (items : list (value * value)).

(** The exception classes the module can raise, directly or through the
    built-ins it calls.  [KeyError] carries the missing key. *)
Inductive exn : Type :=
| ValueError
| TypeError
| AttributeError
| KeyError (key : value)
| IndexError
| AssertionError
| NotImplementedError.

Inductive result (A : Type) : Type :=
| Ok (a : A)
| Raise (e : exn).
Arguments Ok {A} a.
Arguments Raise {A} e.

Definition bind {A B} (r : result A) (k : A -> result B) : result B :=
  match r with
  | Ok a => k a
  | Raise e => Raise e
  end.

Definition seq_eqb {A} (eq : A -> A -> bool) : list A -> list A -> bool :=
  fix go l m :=
    match l, m with
    | [], [] => true
    | x :: l', y :: m' => eq x y && go l' m'
    | _, _ => false
    end.

Definition set_eqb {A} (eq : A -> A -> bool) (l m : list A) : bool :=
  forallb (fun x => existsb (eq x) m) l
  && forallb (fun y => existsb (fun x => eq x y) l) m.

Definition dict_eqb {A} (eq : A -> A -> bool) (l m : list (A * A)) : bool :=
  (length l =? length m)%nat
  && forallb (fun p => existsb (fun q => eq (fst p) (fst q) && eq (snd p) (snd q)) m) l.

(** Python's [==] on this universe. *)
Fixpoint py_eq (a b : value) {struct a} : bool :=
  match a, b with
  | VNone, VNone => true
  | VInt m, VInt n => (m =? n)%Z
  | VStr s, VStr t => String.eqb s t
  | VTuple l, VTuple m => seq_eqb py_eq l m
  | VList l, VList m => seq_eqb py_eq l m
  | VSet l, VSet m => set_eqb py_eq l m
  | VSet l, VFrozenset m => set_eqb py_eq l m
  | VFrozenset l, VSet m => set_eqb py_eq l m
  | VFrozenset l, VFrozenset m => set_eqb py_eq l m
  | VDict l, VDict m => dict_eqb py_eq l m
  | VDict l, VAttrDict m => dict_eqb py_eq l m
  | VAttrDict l, VDict m => dict_eqb py_eq l m
  | VAttrDict l, VAttrDict m => dict_eqb py_eq l m
  | _, _ => false
  end.

Definition py_ne (a b : value) : bool := negb (py_eq a b).

Definition is_none (v : value) : bool :=
  match v with VNone => true | _ => false end.

Definition is_empty {A} (l : list A) : bool :=
  match l with [] => true | _ => false end.

(** Truth value of an object in a condition. *)
Definition truthy (v : value) : bool :=
  match v with
  | VNone => false
  | VInt n => negb (n =? 0)%Z
  | VStr s => negb (String.eqb s "")
  | VTuple l | VList l | VSet l | VFrozenset l => negb (is_empty l)
  | VDict kv | VAttrDict kv => negb (is_empty kv)
  end.

Fixpoint hashable (v : value) : bool :=
  match v with
  | VNone | VInt _ | VStr _ | VFrozenset _ => true
  | VTuple l => forallb hashable l
  | VList _ | VSet _ | VDict _ | VAttrDict _ => false
  end.

(** [iter(v)] run to the end: a string yields its characters (the
    characters of the Rocq string), a dictionary its keys. *)
Definition py_iter (v : value) : result (list value) :=
  match v with
  | VStr s => Ok (map (fun c => VStr (String c EmptyString)) (list_ascii_of_string s))
  | VTuple l | VList l | VSet l | VFrozenset l => Ok l
  | VDict kv | VAttrDict kv => Ok (map fst kv)
  | VNone | VInt _ => Raise TypeError
  end.

Definition set_mem (x : value) (s : list value) : bool := existsb (py_eq x) s.

(** [s.add(x)] on the element list of a set. *)
Definition set_add (s : list value) (x : value) : result (list value) :=
  if hashable x then Ok (if set_mem x s then s else s ++ [x])
  else Raise TypeError.

Fixpoint set_update (s : list value) (xs : list value) : result (list value) :=
  match xs with
  | [] => Ok s
  | x :: xs' => bind (set_add s x) (fun s' => set_update s' xs')
  end.

(** [frozenset(v)]. *)
Definition py_frozenset (v : value) : result (list value) :=
  bind (py_iter v) (set_update []).

(** [a & b] for a frozenset [a]. *)
Definition frozenset_and (a : list value) (b : value) : result (list value) :=
  match b with
  | VSet m | VFrozenset m => Ok (List.filter (fun x => set_mem x m) a)
  | _ => Raise TypeError
  end.

Definition dict_get (kv : list (value * value)) (k : value) : option value :=
  option_map snd (List.find (fun p => py_eq (fst p) k) kv).

(** [k in d] and [d[k]] for a dictionary [d]. *)
Definition dict_contains (kv : list (value * value)) (k : value) : result bool :=
  if hashable k
  then Ok (match dict_get kv k with Some _ => true | None => false end)
  else Raise TypeError.

Definition dict_getitem (kv : list (value * value)) (k : value) : result value :=
  if hashable k
  then match dict_get kv k with
       | Some v => Ok v
       | None => Raise (KeyError k)
       end
  else Raise TypeError.

(** [v[k]] for a string literal [k], the only subscripts the module takes
    of a context or an entity: a sequence wants an integer index and the
    other values are not subscriptable. *)
Definition getitem (v : value) (k : string) : result value :=
  match v with
  | VDict kv | VAttrDict kv => dict_getitem kv (VStr k)
  | _ => Raise TypeError
  end.

(** [v.name] for a name that no built-in type defines ([type],
    [entity_types]). *)
Definition getattr (v : value) (name : string) : result value :=
  match v with
  | VAttrDict kv =>
      match dict_get kv (VStr name) with
      | Some x => Ok x
      | None => Raise AttributeError
      end
  | _ => Raise AttributeError
  end.

End Py.

Export Py.

#[global] Instance result_ret : MRet result := @Ok.
#[global] Instance result_bind : MBind result := fun A B k r => bind r k.

(** ** DialogueStateRule *)

(** The attributes [__init__] sets.  [domain] and [intent] hold whatever
    the caller passed ([VNone] when the option is not given);
    [entity_types] is [None] or a frozenset and [entity_mappings] is [None]
    or a dictionary, as the class documents them. *)
Record DialogueStateRule : Type := {
  dialogue_state : string;
  domain : value;
  intent : value;
  entity_types : option (list value);
  entity_mappings : option (list (value * value));
}.

(** The ('entity', 'entities') step of the loop over [key_kwargs]: the one
    pair of keys the loop knows in a singular and a plural form. *)
Definition resolve_entities (kwargs : gmap string value) : result value :=
  match kwargs !! "entity", kwargs !! "entities" with
  | Some _, Some _ => Raise ValueError
  | Some e, None => s ← py_frozenset (VTuple [e]); Ok (VFrozenset s)
  | None, Some es => s ← py_frozenset es; Ok (VFrozenset s)
  | None, None => Ok VNone
  end.

(** The [isinstance] chain on the resolved entity specification. *)
Definition classify_entities (entities : value)
  : result (option (list value) * option (list (value * value))) :=
  match entities with
  | VNone => Ok (None, None)
  | VStr _ => s ← py_frozenset (VTuple [entities]); Ok (Some s, None)
  | VList _ | VSet _ => s ← py_frozenset entities; Ok (Some s, None)
  | VDict kv | VAttrDict kv => Ok (None, Some kv)
  | _ => Raise ValueError
  end.

(** Whether the keyword arguments hold the key [k]. *)
Definition has_key (kwargs : gmap string value) (k : string) : bool :=
  match kwargs !! k with Some _ => true | None => false end.

(** A keyword that names a parameter of [__init__(self, dialogue_state,
    **kwargs)]: the call raises [TypeError] (multiple values for the
    argument) before the body runs. *)
Definition init_clash (kwargs : gmap string value) : bool :=
  has_key kwargs "self" || has_key kwargs "dialogue_state".

(** [DialogueStateRule(dialogue_state, **kwargs)].  The keys [key_kwargs]
    does not list ([domains], [intents], anything else) are never read. *)
Definition DialogueStateRule_init (name : string) (kwargs : gmap string value)
  : result DialogueStateRule :=
  if init_clash kwargs then Raise TypeError else
  let dom := default VNone (kwargs !! "domain") in
  let int := default VNone (kwargs !! "intent") in
  entities ← resolve_entities kwargs;
  '(types, mappings) ← classify_entities entities;
  Ok {| dialogue_state := name; domain := dom; intent := int;
        entity_types := types; entity_mappings := mappings |}.

(** The first loop of [apply]: [entity_types.update(entity['type'])] for
    each entity. *)
Fixpoint collect_types (es : list value) (acc : list value) : result (list value) :=
  match es with
  | [] => Ok acc
  | entity :: es' =>
      t ← getitem entity "type";
      parts ← py_iter t;
      acc' ← set_update acc parts;
      collect_types es' acc'
  end.

(** The second loop of [apply], over [matched_entities]. *)
Fixpoint match_entities (mappings : list (value * value)) (es : list value)
    (matched : list value) : result (list value) :=
  match es with
  | [] => Ok matched
  | entity :: es' =>
      t ← getitem entity "type";
      known ← dict_contains mappings t;
      hit ← (if (known : bool)
             then v ← getitem entity "value";
                  ty ← getattr entity "type";
                  required ← dict_getitem mappings ty;
                  Ok (py_eq v required)
             else Ok false);
      matched' ← (if (hit : bool)
                  then ty ← getattr entity "type"; set_add matched ty
                  else Ok matched);
      match_entities mappings es' matched'
  end.

(** The entity-type check: [False] when fewer of the wanted types are in
    [context.entity_types] than are wanted. *)
Definition check_entity_types (self : DialogueStateRule) (context : value)
  : result bool :=
  match entity_types self with
  | None => Ok true
  | Some wanted =>
      entities ← getitem context "entities";
      es ← py_iter entities;
      _ ← collect_types es [];
      present ← getattr context "entity_types";
      common ← frozenset_and wanted present;
      Ok (negb (length common <? length wanted)%nat)
  end.

(** The entity-mapping check: [False] when fewer types were matched than
    the mapping has keys. *)
Definition check_entity_mappings (self : DialogueStateRule) (context : value)
  : result bool :=
  match entity_mappings self with
  | None => Ok true
  | Some mappings =>
      entities ← getitem context "entities";
      es ← py_iter entities;
      matched ← match_entities mappings es [];
      Ok (negb (length matched <? length mappings)%nat)
  end.

(** [rule.apply(context)]: the four checks in the order of the source,
    each one returning [False] at once when it fails. *)
Definition apply (self : DialogueStateRule) (context : value) : result bool :=
  wrong_domain ← (if is_none (domain self) then Ok false
                  else d ← getitem context "domain"; Ok (py_ne (domain self) d));
  if (wrong_domain : bool) then Ok false else
  wrong_intent ← (if is_none (intent self) then Ok false
                  else i ← getitem context "intent"; Ok (py_ne (intent self) i));
  if (wrong_intent : bool) then Ok false else
  types_ok ← check_entity_types self context;
  if (types_ok : bool) then check_entity_mappings self context else Ok false.

(** The [complexity] property: every test is a truth test of the
    attribute. *)
Definition complexity (self : DialogueStateRule) : Z :=
  let c := 0 in
  let c := if truthy (domain self) then c + 1 else c in
  let c := if truthy (intent self) then c + Z.shiftl 1 1 else c in
  let c := if match entity_types self with Some s => negb (is_empty s) | None => false end
           then c + Z.shiftl 1 2 else c in
  let c := if match entity_mappings self with Some kv => negb (is_empty kv) | None => false end
           then c + Z.shiftl 1 3 else c in
  c.

(** ** str.format

    [text.format], called with the slots as keyword arguments, is a Python
    built-in.  It is modelled exactly on
    the templates the module is meant for: literal text, the escapes [{{]
    and [}}], and replacement fields [{name}] whose name is a plain key.
    A field that uses more of the format mini-language (a positional index
    or an empty name, a conversion [!r], a format specification [:...],
    attribute or element access, nested braces, non-ASCII field names)
    hands the rest of the template to [format_extended], which is left
    uninterpreted, as is [py_str], the text of a slot value that is not
    itself a string. *)

Class Builtins : Type := {
  py_str : value -> string;
  format_extended : string -> gmap string value -> result string;
}.

Inductive segment : Type :=
| Literal (c : ascii)
| Field (name : string)
| Extended (rest : string)
| Malformed.

Definition special_char (c : ascii) : bool :=
  existsb (Ascii.eqb c) ["{"; "}"; "["; "]"; "."; ":"; "!"]%char.

Definition plain_char (c : ascii) : bool :=
  (nat_of_ascii c <? 128)%nat && negb (special_char c).

Definition is_digit (c : ascii) : bool :=
  (48 <=? nat_of_ascii c)%nat && (nat_of_ascii c <=? 57)%nat.

(** A field name that is looked up in the keyword arguments: not empty and
    not a decimal index. *)
Definition keyword_name (name : string) : bool :=
  negb (String.eqb name "")
  && negb (forallb is_digit (list_ascii_of_string name)).

(** The scan of a template, left to right, one character at a time:
    [InText] in literal text, [AfterOpen] and [AfterClose] just after a
    brace that may be the first of a doubled one, and [InField acc] inside
    a replacement field whose name so far is [acc]. *)
Inductive scan_state : Type :=
| InText
| AfterOpen
| AfterClose
| InField (acc : string).

(** One character [c] of a field name read so far as [acc], with [s'] the
    template after [c]; [text] and [field] are the scans that go on from
    there. *)
Definition field_char (acc : string) (c : ascii) (s' : string)
    (text : list segment) (field : string -> list segment) : list segment :=
  if Ascii.eqb c "}" then
    if keyword_name acc then Field acc :: text
    else [Extended (String "{" (acc +:+ String c s'))]
  else if plain_char c then field (acc +:+ String c EmptyString)
  else [Extended (String "{" (acc +:+ String c s'))].

Fixpoint parse_format (st : scan_state) (s : string) : list segment :=
  match s with
  | EmptyString =>
      match st with
      | InText => []
      | _ => [Malformed]
      end
  | String c s' =>
      match st with
      | InText =>
          if Ascii.eqb c "{" then parse_format AfterOpen s'
          else if Ascii.eqb c "}" then parse_format AfterClose s'
          else Literal c :: parse_format InText s'
      | AfterOpen =>
          if Ascii.eqb c "{" then Literal "{" :: parse_format InText s'
          else field_char EmptyString c s' (parse_format InText s')
                 (fun acc => parse_format (InField acc) s')
      | AfterClose =>
          if Ascii.eqb c "}" then Literal "}" :: parse_format InText s'
          else [Malformed]
      | InField acc =>
          field_char acc c s' (parse_format InText s')
            (fun acc => parse_format (InField acc) s')
      end
  end.

Section Format.
Context `{Builtins}.

Definition format_value (v : value) : string :=
  match v with
  | VStr s => s
  | _ => py_str v
  end.

Fixpoint render (segs : list segment) (slots : gmap string value) : result string :=
  match segs with
  | [] => Ok EmptyString
  | Literal c :: segs' => out ← render segs' slots; Ok (String c out)
  | Field name :: segs' =>
      match slots !! name with
      | None => Raise (KeyError (VStr name))
      | Some v => out ← render segs' slots; Ok (format_value v +:+ out)
      end
  | Extended rest :: _ => format_extended rest slots
  | Malformed :: _ => Raise ValueError
  end.

Definition str_format (text : string) (slots : gmap string value) : result string :=
  render (parse_format InText text) slots.

(** [text.format]: only a string has the method. *)
Definition format (text : value) (slots : gmap string value) : result string :=
  match text with
  | VStr s => str_format s slots
  | VAttrDict kv =>
      match dict_get kv (VStr "format") with
      | Some _ => Raise TypeError
      | None => Raise AttributeError
      end
  | _ => Raise AttributeError
  end.

End Format.

(** ** DialogueResponder *)

Record DialogueResponder : Type := {
  slots : gmap string value;
  client_actions : list value;
}.

(** [DialogueResponder(slots)]. *)
Definition DialogueResponder_init (slots : gmap string value) : DialogueResponder :=
  {| slots := slots; client_actions := [] |}.

(** A method of the responder: an outcome and the responder after the
    call. *)
Definition method (A : Type) : Type := DialogueResponder -> result A * DialogueResponder.

(** [random.choice(seq)]; [draw] is what the random source gives. *)
Definition random_choice (draw : nat) (seq : list value) : result value :=
  match seq with
  | [] => Raise IndexError
  | _ => match nth_error seq (draw mod length seq)%nat with
         | Some x => Ok x
         | None => Raise IndexError
         end
  end.

(** [_choose(items)]: a frozenset, like anything that is no tuple, list
    or set, comes back as it is. *)
Definition _choose (draw : nat) (items : value) : result value :=
  match items with
  | VTuple l | VList l => random_choice draw l
  | VSet l => random_choice draw l
  | _ => Ok items
  end.

(** The action [_reply] builds:
    [{'name': action, 'message': {'text': message}}]. *)
Definition client_action (name message : string) : value :=
  VDict [(VStr "name", VStr name);
         (VStr "message", VDict [(VStr "text", VStr message)])].

Definition respond (action : value) : method unit :=
  fun self =>
    (Ok tt, {| slots := slots self; client_actions := client_actions self ++ [action] |}).

Definition show (things : value) : method unit :=
  fun self => (Raise NotImplementedError, self).

Section Responder.
Context `{Builtins}.

Definition _reply (draw : nat) (text : value) (action : string) : method unit :=
  fun self =>
    match _choose draw text with
    | Raise e => (Raise e, self)
    | Ok text =>
        match format text (slots self) with
        | Raise e => (Raise e, self)
        | Ok message => respond (client_action action message) self
        end
    end.

Definition reply (draw : nat) (text : value) : method unit :=
  _reply draw text "show-reply".

Definition prompt (draw : nat) (text : value) : method unit :=
  _reply draw text "show-prompt".

End Responder.

(** ** DialogueManager *)

(** A handler is a callable: [h_id] is the identity of the function object
    (what [!=] compares), [h_name] its [__name__] when it has one,
    [h_params] the number of positional parameters its definition
    declares, and [h_body] what a call with that many arguments does.  The
    manager passes the handler one dictionary twice, as [slots] and inside
    the responder, so the body sees and updates both through the
    responder. *)
Record handler : Type := {
  h_id : nat;
  h_name : option string;
  h_params : nat;
  h_body : value -> method unit;
}.

Definition handler_ne (a b : handler) : bool := negb (h_id a =? h_id b)%nat.

Record DialogueManager : Type := {
  handler_map : gmap string handler;
  rules : list DialogueStateRule;
}.

(** [DialogueManager()]. *)
Definition DialogueManager_init : DialogueManager :=
  {| handler_map := ∅; rules := [] |}.

(** [list.sort(key=...)]: ascending and stable.  An element is put in
    front of the first later element whose key is not smaller. *)
Fixpoint insert_by_key {A} (key : A -> Z) (x : A) (l : list A) : list A :=
  match l with
  | [] => [x]
  | y :: l' => if (key x <=? key y)%Z then x :: y :: l' else y :: insert_by_key key x l'
  end.

Fixpoint sort_by_key {A} (key : A -> Z) (l : list A) : list A :=
  match l with
  | [] => []
  | x :: l' => insert_by_key key x (sort_by_key key l')
  end.

(** The order the sort establishes. *)
Definition key_le {A} (key : A -> Z) (a b : A) : Prop := key a ≤ key b.

(** [if name is None: name = handler.__name__]. *)
Definition resolve_name (name : option string) (h : option handler) : result string :=
  match name with
  | Some n => Ok n
  | None =>
      match h with
      | Some f => match h_name f with Some n => Ok n | None => Raise AttributeError end
      | None => Raise AttributeError
      end
  end.

(** A keyword that names a parameter of [add_dialogue_rule(self, name,
    handler, **kwargs)]: the call raises [TypeError] before the body
    runs. *)
Definition call_clash (kwargs : gmap string value) : bool :=
  has_key kwargs "self" || has_key kwargs "name" || has_key kwargs "handler".

(** [add_dialogue_rule(name, handler, **kwargs)].  The rule is appended
    and the list sorted before the handler table is looked at, so the
    manager that comes back with an [AssertionError] already holds the new
    rule.  A keyword [dialogue_state] gets as far as the constructor, whose
    call raises. *)
Definition add_dialogue_rule (name : option string) (h : option handler)
    (kwargs : gmap string value) (self : DialogueManager)
  : result unit * DialogueManager :=
  if call_clash kwargs then (Raise TypeError, self) else
  match resolve_name name h with
  | Raise e => (Raise e, self)
  | Ok name =>
      match DialogueStateRule_init name kwargs with
      | Raise e => (Raise e, self)
      | Ok rule =>
          let self := {| handler_map := handler_map self;
                         rules := sort_by_key complexity (rules self ++ [rule]) |} in
          match h with
          | None => (Ok tt, self)
          | Some f =>
              match handler_map self !! name with
              | Some old =>
                  if handler_ne old f then (Raise AssertionError, self)
                  else (Ok tt, {| handler_map := <[name := f]> (handler_map self);
                                  rules := rules self |})
              | None =>
                  (Ok tt, {| handler_map := <[name := f]> (handler_map self);
                             rules := rules self |})
              end
          end
      end
  end.

(** The loop of [apply_handler]: the state of the first rule that
    applies; the rules after it are not evaluated. *)
Fixpoint first_match (rs : list DialogueStateRule) (context : value)
  : result (option string) :=
  match rs with
  | [] => Ok None
  | rule :: rs' =>
      ok ← apply rule context;
      if (ok : bool) then Ok (Some (dialogue_state rule)) else first_match rs' context
  end.

(** [_default_handler] is declared a static method with the two
    parameters [(self, context)] and an empty body. *)
Definition _default_handler : handler :=
  {| h_id := 0; h_name := Some "_default_handler"; h_params := 2;
     h_body := fun _ self => (Ok tt, self) |}.

(** [handler(context, slots, responder)]. *)
Definition call_handler (f : handler) (context : value) : method unit :=
  fun responder =>
    if (h_params f =? 3)%nat then h_body f context responder
    else (Raise TypeError, responder).

Record Response : Type := {
  response_state : option string;
  response_actions : list value;
}.

Definition apply_handler (context : value) (self : DialogueManager) : result Response :=
  state ← first_match (rules self) context;
  f ← match state with
      | None => Ok _default_handler
      | Some name =>
          match handler_map self !! name with
          | Some f => Ok f
          | None => Raise (KeyError (VStr name))
          end
      end;
  let slots : gmap string value := ∅ in
  let responder := DialogueResponder_init slots in
  match call_handler f context responder with
  | (Raise e, _) => Raise e
  | (Ok _, responder) =>
      Ok {| response_state := state; response_actions := client_actions responder |}
  end.

(** A run of registrations on one manager, stopped by the first one that
    raises. *)
Record registration : Type := {
  reg_name : option string;
  reg_handler : option handler;
  reg_kwargs : gmap string value;
}.

Fixpoint register_all (regs : list registration) (self : DialogueManager)
  : result unit * DialogueManager :=
  match regs with
  | [] => (Ok tt, self)
  | r :: regs' =>
      match add_dialogue_rule (reg_name r) (reg_handler r) (reg_kwargs r) self with
      | (Ok _, self') => register_all regs' self'
      | (Raise e, self') => (Raise e, self')
      end
  end.

(** The rule a registration constructs. *)
Definition registered_rule (r : registration) : result DialogueStateRule :=
  name ← resolve_name (reg_name r) (reg_handler r);
  DialogueStateRule_init name (reg_kwargs r).

(** ** Rule equality *)

(** What [__eq__] returns: a truth value, or [NotImplemented] when the
    other operand is not a rule. *)
Inductive comparison : Type :=
| Compared (b : bool)
| NotImplemented.

(** The other operand of a comparison: a rule, or a value of another
    type. *)
Inductive operand : Type :=
| ORule (r : DialogueStateRule)
| OValue (v : value).

Definition option_eqb {A} (eq : A -> A -> bool) (a b : option A) : bool :=
  match a, b with
  | None, None => true
  | Some x, Some y => eq x y
  | _, _ => false
  end.

(** [self.__dict__ == other.__dict__]: the five attributes, each compared
    with [==]. *)
Definition dict_eq (self other : DialogueStateRule) : bool :=
  String.eqb (dialogue_state self) (dialogue_state other)
  && py_eq (domain self) (domain other)
  && py_eq (intent self) (intent other)
  && option_eqb (set_eqb py_eq) (entity_types self) (entity_types other)
  && option_eqb (dict_eqb py_eq) (entity_mappings self) (entity_mappings other).

Definition __eq__ (self : DialogueStateRule) (other : operand) : comparison :=
  match other with
  | ORule r => Compared (dict_eq self r)
  | OValue _ => NotImplemented
  end.

(** [not self.__eq__(other)]; [NotImplemented] is a true value in the
    Python versions the module is written for (2.7, and 3 with the
    [future] package). *)
Definition __ne__ (self : DialogueStateRule) (other : operand) : bool :=
  negb (match __eq__ self other with
        | Compared b => b
        | NotImplemented => true
        end).

(** ** Sequences of responder calls *)

(** The calls a handler can make on its responder, and a run of them that
    stops at the first one that raises. *)
Inductive responder_call : Type :=
| CallReply (draw : nat) (text : value)
| CallPrompt (draw : nat) (text : value)
| CallRespond (action : value)
| CallShow (things : value).

Section Calls.
Context `{Builtins}.

Definition run_call (c : responder_call) : method unit :=
  match c with
  | CallReply draw text => reply draw text
  | CallPrompt draw text => prompt draw text
  | CallRespond action => respond action
  | CallShow things => show things
  end.

Fixpoint run_calls (cs : list responder_call) : method unit :=
  fun self =>
    match cs with
    | [] => (Ok tt, self)
    | c :: cs' =>
        match run_call c self with
        | (Ok _, self') => run_calls cs' self'
        | (Raise e, self') => (Raise e, self')
        end
    end.

End Calls.

(** A filter against the value a context holds: no filter, or an equal
    value. *)
Definition filter_ok (wanted found : value) : bool :=
  is_none wanted || py_eq wanted found.

(** ** Vocabulary of the statements *)

(** The specification's reading of specificity: the bit-flag sum over the
    filters that are present, that is, not [None].  [complexity] above is
    what the source computes. *)
Definition specificity_spec (r : DialogueStateRule) : Z :=
  (if is_none (domain r) then 0 else 1)
  + (if is_none (intent r) then 0 else 2)
  + (match entity_types r with None => 0 | Some _ => 4 end)
  + (match entity_mappings r with None => 0 | Some _ => 8 end).

(** The filters that are present, that is, not [None]. *)
Definition present (r : DialogueStateRule) : bool * bool * bool * bool :=
  (negb (is_none (domain r)), negb (is_none (intent r)),
   match entity_types r with Some _ => true | None => false end,
   match entity_mappings r with Some _ => true | None => false end).

(** The filters that count towards [complexity]: those set to a true
    value. *)
Definition counted (r : DialogueStateRule) : bool * bool * bool * bool :=
  (truthy (domain r), truthy (intent r),
   match entity_types r with Some s => negb (is_empty s) | None => false end,
   match entity_mappings r with Some kv => negb (is_empty kv) | None => false end).

Definition flag (b : bool) (weight : Z) : Z := if b then weight else 0.

(** [r'] has every filter of [r], and possibly filters [r] leaves unset. *)
Definition adds_filters (r r' : DialogueStateRule) : Prop :=
  (domain r = VNone ∨ domain r' = domain r)
  ∧ (intent r = VNone ∨ intent r' = intent r)
  ∧ (entity_types r = None ∨ entity_types r' = entity_types r)
  ∧ (entity_mappings r = None ∨ entity_mappings r' = entity_mappings r).

Definition same_complexity (c : Z) (r : DialogueStateRule) : Prop := complexity r = c.

#[global] Instance same_complexity_dec c r : Decision (same_complexity c r).
Proof. unfold same_complexity. apply _. Defined.

(** The keys [__init__] reads, after the two that name its parameters. *)
Definition rule_keys : list string :=
  ["self"; "dialogue_state"; "domain"; "intent"; "entity"; "entities"].

(** What [_choose] may return for an input. *)
Definition chosen_from (text chosen : value) : Prop :=
  match text with
  | VTuple l | VList l | VSet l => In chosen l
  | _ => chosen = text
  end.

(** An input [random.choice] can draw from: not an empty collection. *)
Definition nonempty_text (text : value) : Prop :=
  match text with
  | VTuple l | VList l | VSet l => l ≠ []
  | _ => True
  end.

(** The responder after one more action. *)
Definition appended (self : DialogueResponder) (action : value) : DialogueResponder :=
  {| slots := slots self; client_actions := client_actions self ++ [action] |}.

(** A segment that renders from the slots: literal text, or a field whose
    key the slots hold. *)
Definition renders (slots : gmap string value) (seg : segment) : Prop :=
  match seg with
  | Literal _ => True
  | Field name => is_Some (slots !! name)
  | Extended _ | Malformed => False
  end.

(** Text with no brace in it, and a field name the scan reads as a key of
    the slots. *)
Definition brace_free (s : string) : bool :=
  forallb (λ c, negb (Ascii.eqb c "{") && negb (Ascii.eqb c "}"))
    (list_ascii_of_string s).

Definition plain_name (key : string) : bool :=
  forallb plain_char (list_ascii_of_string key) && keyword_name key.

(** An entity as the context documents it: a plain dictionary with a
    string under 'type' and something under 'value'. *)
Definition dict_entity (e : value) : Prop :=
  ∃ kv t v, e = VDict kv
            ∧ dict_get kv (VStr "type") = Some (VStr t)
            ∧ dict_get kv (VStr "value") = Some v.

(** Whether the type of an entity is a key of the mapping. *)
Definition names_mapped_type (mappings : list (value * value)) (e : value) : bool :=
  match getitem e "type" with
  | Ok t => match dict_get mappings t with Some _ => true | None => false end
  | Raise _ => false
  end.

(** ** Scenario data *)

Definition entity (ty val : string) : value :=
  VDict [(VStr "type", VStr ty); (VStr "value", VStr val)].

(** An entity that also answers [entity.type] and [entity.value]. *)
Definition attr_entity (ty val : string) : value :=
  VAttrDict [(VStr "type", VStr ty); (VStr "value", VStr val)].

Definition context (dom int : string) (entities : list value) : value :=
  VDict [(VStr "domain", VStr dom); (VStr "intent", VStr int);
         (VStr "entities", VList entities)].

Definition weather_forecast : value := context "weather" "forecast" [].

(** Keyword arguments of rule specifications. *)
Definition domain_only : gmap string value := {[ "domain" := VStr "weather" ]}.

Definition domain_and_intent : gmap string value :=
  <[ "intent" := VStr "forecast" ]> {[ "domain" := VStr "weather" ]}.

Definition domain_and_domains : gmap string value :=
  <[ "domains" := VList [VStr "sports"; VStr "news"] ]> {[ "domain" := VStr "weather" ]}.

Definition intent_and_intents : gmap string value :=
  <[ "intents" := VList [VStr "greet"] ]> {[ "intent" := VStr "forecast" ]}.

Definition entity_and_entities : gmap string value :=
  <[ "entities" := VList [VStr "city"] ]> {[ "entity" := VStr "date" ]}.

(** Rules. *)
Definition named_rule (name : string) (dom int : value) : DialogueStateRule :=
  {| dialogue_state := name; domain := dom; intent := int;
     entity_types := None; entity_mappings := None |}.

Definition greet_rule : DialogueStateRule := named_rule "greet" VNone VNone.

Definition empty_domain : DialogueStateRule := named_rule "state" (VStr "") VNone.

(** A rule whose entity attributes are assigned directly. *)
Definition rule_with (types : option (list value))
    (mappings : option (list (value * value))) : DialogueStateRule :=
  {| dialogue_state := "state"; domain := VNone; intent := VNone;
     entity_types := types; entity_mappings := mappings |}.

Definition city_is_paris : DialogueStateRule :=
  rule_with None (Some [(VStr "city", VStr "Paris")]).

Definition city_and_date : DialogueStateRule :=
  rule_with (Some [VStr "city"; VStr "date"]) None.

(** A reading of the built-ins for slots that hold strings and templates
    of plain fields; it says nothing else. *)
Definition plain_builtins : Builtins :=
  {| py_str := fun _ => EmptyString;
     format_extended := fun _ _ => Raise ValueError |}.

(** A handler that replies "hello" once. *)
Definition greeter (id : nat) : handler :=
  {| h_id := id; h_name := Some "greet"; h_params := 3;
     h_body := fun _ => @reply plain_builtins 0 (VStr "hello") |}.

(** A handler that makes the given calls. *)
Definition calling (id : nat) (cs : list responder_call) : handler :=
  {| h_id := id; h_name := Some "handler"; h_params := 3;
     h_body := fun _ => @run_calls plain_builtins cs |}.

Definition register (name : string) (h : handler) (kwargs : gmap string value)
  : registration :=
  {| reg_name := Some name; reg_handler := Some h; reg_kwargs := kwargs |}.

(** The manager after "greet" is registered once, with no filter. *)
Definition greet_registered : DialogueManager :=
  {| handler_map := {[ "greet" := greeter 1 ]}; rules := [greet_rule] |}.

(** A manager with one rule, for the domain "weather". *)
Definition greet_weather : DialogueManager :=
  {| handler_map := {[ "greet" := greeter 1 ]};
     rules := [named_rule "greet" (VStr "weather") VNone] |}.

(** Three registrations, the first and the last of one complexity, and
    the manager they leave. *)
Definition three_registrations : list registration :=
  [register "general" (greeter 1) domain_only;
   register "forecast" (greeter 2) domain_and_intent;
   register "fallback" (greeter 3) domain_only].

Definition three_registered : DialogueManager :=
  {| handler_map :=
       <[ "fallback" := greeter 3 ]>
         (<[ "forecast" := greeter 2 ]> {[ "general" := greeter 1 ]});
     rules := [named_rule "general" (VStr "weather") VNone;
               named_rule "fallback" (VStr "weather") VNone;
               named_rule "forecast" (VStr "weather") (VStr "forecast")] |}.

(** Two filtered registrations and one without filters, and the manager
    they leave. *)
Definition catch_all_registrations : list registration :=
  [register "general" (greeter 1) domain_only;
   register "forecast" (greeter 2) domain_and_intent;
   register "anything" (greeter 3) ∅].

Definition catch_all_registered : DialogueManager :=
  {| handler_map :=
       <[ "anything" := greeter 3 ]>
         (<[ "forecast" := greeter 2 ]> {[ "general" := greeter 1 ]});
     rules := [named_rule "anything" VNone VNone;
               named_rule "general" (VStr "weather") VNone;
               named_rule "forecast" (VStr "weather") (VStr "forecast")] |}.

(** A handler that replies with a template, and a manager that has it
    for every context. *)
Definition asks_name : handler :=
  {| h_id := 4; h_name := Some "ask"; h_params := 3;
     h_body := fun _ => @reply plain_builtins 0 (VStr "Hi {name}") |}.

Definition asks_registered : DialogueManager :=
  {| handler_map := {[ "ask" := asks_name ]};
     rules := [named_rule "ask" VNone VNone] |}.

(** Calls of which the third raises. *)
Definition three_calls : list responder_call :=
  [CallReply 0 (VStr "Bye"); CallRespond (VStr "anything"); CallShow VNone;
   CallPrompt 0 (VStr "Hi {name}")].

(** Slots and reply variants of Scenario D. *)
Definition ana : gmap string value := {[ "name" := VStr "Ana" ]}.

Definition greetings : value := VTuple [VStr "Hi {name}"; VStr "Hello {name}"].

(** * Properties *)

(** ** The result monad *)

Ltac step_bind := cbn [mbind result_bind bind].

Lemma bind_Ok {A B} (r : result A) (k : A -> result B) (b : B) :
  r ≫= k = Ok b ↔ ∃ a, r = Ok a ∧ k a = Ok b.
Proof.
  destruct r as [a|e]; simpl; split.
  - eauto.
  - intros (a' & Ha & Hk). by inversion Ha.
  - done.
  - intros (a' & Ha & _). done.
Qed.

(** ** Sorting by key *)

Section Sorting.
Context {A : Type} (key : A -> Z).

Lemma insert_by_key_perm x l : insert_by_key key x l ≡ₚ x :: l.
Proof.
  induction l as [|y l IH]; simpl; [done|].
  destruct (key x <=? key y); [done|].
  rewrite IH. apply Permutation_swap.
Qed.

Lemma sort_by_key_perm l : sort_by_key key l ≡ₚ l.
Proof.
  induction l as [|x l IH]; simpl; [done|].
  by rewrite insert_by_key_perm, IH.
Qed.

Lemma insert_by_key_hd x y l :
  key y ≤ key x → HdRel (key_le key) y l → HdRel (key_le key) y (insert_by_key key x l).
Proof.
  intros Hyx Hhd. destruct l as [|z l]; simpl.
  - by constructor.
  - destruct (key x <=? key z); constructor; [done|].
    by inversion Hhd.
Qed.

Lemma insert_by_key_sorted x l :
  Sorted (key_le key) l → Sorted (key_le key) (insert_by_key key x l).
Proof.
  induction 1 as [|y l Hs IH Hhd]; simpl.
  - repeat constructor.
  - destruct (Z.leb_spec (key x) (key y)) as [Hle|Hgt].
    + constructor; [by constructor|]. by constructor.
    + constructor; [done|]. apply insert_by_key_hd; [unfold key_le|done]. lia.
Qed.

Lemma sort_by_key_sorted l : Sorted (key_le key) (sort_by_key key l).
Proof.
  induction l as [|x l IH]; simpl; [constructor|].
  by apply insert_by_key_sorted.
Qed.

(** Stability: the elements of any one key keep their order. *)
Lemma insert_by_key_filter c x l :
  filter (λ a, key a = c) (insert_by_key key x l) = filter (λ a, key a = c) (x :: l).
Proof.
  induction l as [|y l IH]; simpl; [done|].
  destruct (Z.leb_spec (key x) (key y)) as [Hle|Hgt]; [done|].
  rewrite filter_cons, IH, !filter_cons.
  repeat case_decide; try done. lia.
Qed.

Lemma sort_by_key_filter c l :
  filter (λ a, key a = c) (sort_by_key key l) = filter (λ a, key a = c) l.
Proof.
  induction l as [|x l IH]; simpl; [done|].
  by rewrite insert_by_key_filter, !filter_cons, IH.
Qed.

(** A sorted list is left as it is, so any two stable ascending sorts
    agree with this one. *)
Lemma insert_by_key_head x l :
  HdRel (key_le key) x l → insert_by_key key x l = x :: l.
Proof.
  destruct l as [|y l]; simpl; [done|].
  inversion 1 as [|? ? Hle]; subst. unfold key_le in Hle.
  destruct (Z.leb_spec (key x) (key y)); [done|lia].
Qed.

Lemma sort_by_key_id l : Sorted (key_le key) l → sort_by_key key l = l.
Proof.
  induction 1 as [|x l Hs IH Hhd]; simpl; [done|].
  rewrite IH. by apply insert_by_key_head.
Qed.

End Sorting.

(** ** Registration *)

Lemma add_dialogue_rule_Ok name h kwargs dm dm' :
  add_dialogue_rule name h kwargs dm = (Ok tt, dm') →
  ∃ rule,
    registered_rule {| reg_name := name; reg_handler := h; reg_kwargs := kwargs |} = Ok rule
    ∧ rules dm' = sort_by_key complexity (rules dm ++ [rule]).
Proof.
  unfold add_dialogue_rule, registered_rule; simpl.
  destruct (call_clash kwargs); [done|].
  destruct (resolve_name name h) as [n|e]; simpl; [|done].
  destruct (DialogueStateRule_init n kwargs) as [rule|e]; [|done].
  intros Hadd. exists rule. split; [done|].
  destruct h as [f|]; simpl in Hadd.
  - destruct (handler_map dm !! n) as [old|];
      [destruct (handler_ne old f); [done|]|]; by inversion Hadd.
  - by inversion Hadd.
Qed.

Lemma register_all_rules regs dm dm' :
  register_all regs dm = (Ok tt, dm') →
  Sorted (key_le complexity) (rules dm) →
  ∃ rs,
    Forall2 (λ r rule, registered_rule r = Ok rule) regs rs
    ∧ Sorted (key_le complexity) (rules dm')
    ∧ rules dm' ≡ₚ rules dm ++ rs
    ∧ ∀ c, filter (same_complexity c) (rules dm')
           = filter (same_complexity c) (rules dm ++ rs).
Proof.
  revert dm. induction regs as [|r regs IH]; intros dm; simpl.
  - intros [= <-] Hs. exists []. rewrite app_nil_r. by repeat split.
  - destruct r as [name h kwargs]; simpl.
    destruct (add_dialogue_rule name h kwargs dm) as [[[]|e] dm1] eqn:Hadd; [|done].
    intros Hrun _. apply add_dialogue_rule_Ok in Hadd as (rule & Hrule & Hrules).
    destruct (IH dm1 Hrun) as (rs & Hrs & Hsorted & Hperm & Hstable).
    { rewrite Hrules. apply sort_by_key_sorted. }
    exists (rule :: rs). split; [constructor; assumption|]. split; [done|]. split.
    + rewrite Hperm, Hrules, sort_by_key_perm. by rewrite <- app_assoc.
    + intros c. change (rule :: rs) with ([rule] ++ rs).
      rewrite Hstable, Hrules, app_assoc, (filter_app _ _ rs).
      unfold same_complexity. rewrite sort_by_key_filter.
      by rewrite <- filter_app.
Qed.

(** C6.  After any run of registrations that all succeed on a fresh
    manager, the rule list is sorted by ascending complexity, it holds
    exactly the rules the registrations constructed, and the rules of any
    one complexity stand in the order they were registered in. *)
Theorem rules_sorted_stable (regs : list registration) (dm : DialogueManager) :
  register_all regs DialogueManager_init = (Ok tt, dm) →
  ∃ rs,
    Forall2 (λ r rule, registered_rule r = Ok rule) regs rs
    ∧ Sorted (key_le complexity) (rules dm)
    ∧ rules dm ≡ₚ rs
    ∧ ∀ c, filter (same_complexity c) (rules dm) = filter (same_complexity c) rs.
Proof.
  intros Hrun. apply register_all_rules in Hrun; [done|constructor].
Qed.

(** Three registrations: the two domain-only rules come first, in the
    order they were registered in, and the domain-and-intent rule
    registered between them comes last. *)
Lemma rules_sorted_stable_witness :
  ∃ rs,
    Forall2 (λ r rule, registered_rule r = Ok rule) three_registrations rs
    ∧ Sorted (key_le complexity) (rules three_registered)
    ∧ rules three_registered ≡ₚ rs
    ∧ ∀ c, filter (same_complexity c) (rules three_registered)
           = filter (same_complexity c) rs.
Proof.
  apply (rules_sorted_stable three_registrations three_registered).
  vm_compute. reflexivity.
Defined.

(** ** Selection *)

Lemma first_match_first_true before rule after ctx :
  Forall (λ r, apply r ctx = Ok false) before →
  apply rule ctx = Ok true →
  first_match (before ++ rule :: after) ctx = Ok (Some (dialogue_state rule)).
Proof.
  intros Hbefore Hrule.
  induction Hbefore as [|r before Hr _ IH]; simpl.
  - by rewrite Hrule.
  - by rewrite Hr.
Qed.

Lemma first_match_none rs ctx :
  Forall (λ r, apply r ctx = Ok false) rs → first_match rs ctx = Ok None.
Proof.
  induction 1 as [|r rs Hr _ IH]; simpl; [done|]. by rewrite Hr.
Qed.

Lemma init_domain_only n :
  DialogueStateRule_init n domain_only
  = Ok {| dialogue_state := n; domain := VStr "weather"; intent := VNone;
          entity_types := None; entity_mappings := None |}.
Proof. reflexivity. Qed.

Lemma init_domain_and_intent n :
  DialogueStateRule_init n domain_and_intent
  = Ok {| dialogue_state := n; domain := VStr "weather"; intent := VStr "forecast";
          entity_types := None; entity_mappings := None |}.
Proof. reflexivity. Qed.

(** C1.  Scenario A: a domain-only rule and a domain-and-intent rule,
    registered in that order under distinct names.  Both registrations
    succeed, the rule list is the domain-only rule (complexity 1) followed
    by the other (complexity 3), both rules apply to the context
    {domain: weather, intent: forecast, entities: []}, and the scan selects
    the domain-only rule's state whatever rules follow it; the dispatch
    then is the call of that state's handler.  In any rule list the scan
    returns the state of the first rule that applies, whatever comes after
    it. *)
Theorem least_specific_rule_wins (n1 n2 : string) (h1 h2 : handler) :
  n1 ≠ n2 →
  ∃ dm r1 r2,
    register_all [register n1 h1 domain_only; register n2 h2 domain_and_intent]
      DialogueManager_init = (Ok tt, dm)
    ∧ rules dm = [r1; r2]
    ∧ (dialogue_state r1 = n1 ∧ complexity r1 = 1 ∧ apply r1 weather_forecast = Ok true)
    ∧ (dialogue_state r2 = n2 ∧ complexity r2 = 3 ∧ apply r2 weather_forecast = Ok true)
    ∧ first_match (rules dm) weather_forecast = Ok (Some n1)
    ∧ (∀ later, first_match (r1 :: later) weather_forecast = Ok (Some n1))
    ∧ apply_handler weather_forecast dm
      = match call_handler h1 weather_forecast (DialogueResponder_init ∅) with
        | (Raise e, _) => Raise e
        | (Ok _, responder) =>
            Ok {| response_state := Some n1;
                  response_actions := client_actions responder |}
        end
    ∧ (∀ before rule after ctx,
         Forall (λ r, apply r ctx = Ok false) before →
         apply rule ctx = Ok true →
         first_match (before ++ rule :: after) ctx = Ok (Some (dialogue_state rule))).
Proof.
  intros Hne. eexists _, _, _.
  split.
  { simpl. unfold add_dialogue_rule.
    change (call_clash domain_only) with false.
    change (call_clash domain_and_intent) with false. simpl.
    rewrite init_domain_only; simpl. rewrite lookup_empty.
    rewrite init_domain_and_intent; simpl.
    rewrite lookup_insert_ne by done. rewrite lookup_empty. reflexivity. }
  simpl. split; [reflexivity|].
  split; [by repeat split|]. split; [by repeat split|].
  split; [reflexivity|]. split; [reflexivity|].
  split; [|apply first_match_first_true].
  unfold apply_handler; simpl.
  rewrite lookup_insert_ne by done. rewrite lookup_insert_eq. simpl.
  by destruct (call_handler h1 weather_forecast (DialogueResponder_init ∅)) as [[[]|e] r].
Qed.

Lemma least_specific_rule_wins_witness :
  apply_handler weather_forecast
    (snd (register_all [register "general" (greeter 1) domain_only;
                        register "forecast" (greeter 2) domain_and_intent]
            DialogueManager_init))
  = Ok {| response_state := Some "general";
          response_actions := [client_action "show-reply" "hello"] |}.
Proof.
  destruct (least_specific_rule_wins "general" "forecast" (greeter 1) (greeter 2))
    as (dm & r1 & r2 & Hrun & _ & _ & _ & _ & _ & Hdispatch & _); [discriminate|].
  rewrite Hrun. simpl. rewrite Hdispatch. reflexivity.
Defined.

(** C2.  When no rule applies, the dispatch calls [_default_handler] with
    the three arguments (context, slots, responder); the function declares
    two parameters, so the call raises [TypeError] and no response is
    returned. *)
Theorem default_handler_call_raises (dm : DialogueManager) (ctx : value) :
  Forall (λ r, apply r ctx = Ok false) (rules dm) →
  first_match (rules dm) ctx = Ok None
  ∧ call_handler _default_handler ctx (DialogueResponder_init ∅)
    = (Raise TypeError, DialogueResponder_init ∅)
  ∧ apply_handler ctx dm = Raise TypeError.
Proof.
  intros Hnone%first_match_none. split; [done|]. split; [done|].
  unfold apply_handler. by rewrite Hnone.
Qed.

(** A manager whose one rule wants another domain, and a fresh one. *)
Lemma default_handler_call_raises_witness :
  apply_handler (context "sports" "score" []) greet_weather = Raise TypeError
  ∧ apply_handler weather_forecast DialogueManager_init = Raise TypeError.
Proof.
  split.
  - apply (default_handler_call_raises greet_weather (context "sports" "score" [])).
    repeat constructor.
  - apply (default_handler_call_raises DialogueManager_init weather_forecast).
    constructor.
Defined.

(** ** Entity filters *)

(** Whatever is passed as [entity] or [entities] reaches the [isinstance]
    chain wrapped in a frozenset, which is none of the shapes the chain
    accepts: no rule with an entity filter can be constructed. *)
Lemma resolve_entities_frozenset kwargs v :
  resolve_entities kwargs = Ok v → v = VNone ∨ ∃ s, v = VFrozenset s.
Proof.
  unfold resolve_entities.
  destruct (kwargs !! "entity") as [e|], (kwargs !! "entities") as [es|]; try done.
  - destruct (py_frozenset (VTuple [e])); simpl; [|done]. intros [= <-]. eauto.
  - destruct (py_frozenset es); simpl; [|done]. intros [= <-]. eauto.
  - intros [= <-]. eauto.
Qed.

Lemma init_no_entity_filter name kwargs rule :
  DialogueStateRule_init name kwargs = Ok rule →
  entity_types rule = None ∧ entity_mappings rule = None
  ∧ kwargs !! "entity" = None ∧ kwargs !! "entities" = None.
Proof.
  unfold DialogueStateRule_init. intros Hinit.
  destruct (init_clash kwargs); [done|].
  apply bind_Ok in Hinit as (v & Hres & Hinit).
  pose proof (resolve_entities_frozenset _ _ Hres) as [->|[s ->]]; simpl in Hinit.
  - injection Hinit as <-. simpl. repeat split; [..|].
    all: unfold resolve_entities in Hres.
    all: by destruct (kwargs !! "entity"), (kwargs !! "entities");
           try destruct (py_frozenset _).
  - done.
Qed.

(** A rule with an entity-type filter reads [context.entity_types]; a
    plain dictionary has no such attribute, so the check raises and the
    rule never reports a match on one. *)
Lemma check_entity_types_plain rule wanted kv :
  entity_types rule = Some wanted →
  ∃ e, check_entity_types rule (VDict kv) = Raise e.
Proof.
  intros Htypes. unfold check_entity_types. rewrite Htypes.
  destruct (getitem (VDict kv) "entities") as [es|e]; [|exists e; reflexivity].
  step_bind.
  destruct (py_iter es) as [l|e]; [|exists e; reflexivity].
  step_bind.
  destruct (collect_types l []) as [acc|e]; [|exists e; reflexivity].
  exists AttributeError. reflexivity.
Qed.

Lemma entity_types_plain_context rule wanted kv :
  entity_types rule = Some wanted → apply rule (VDict kv) ≠ Ok true.
Proof.
  intros Htypes Happly. unfold apply in Happly.
  apply bind_Ok in Happly as ([] & _ & Happly); [done|].
  apply bind_Ok in Happly as ([] & _ & Happly); [done|].
  apply bind_Ok in Happly as (ok & Hcheck & _).
  destruct (check_entity_types_plain rule wanted kv Htypes) as [e He].
  congruence.
Qed.

(** C3.  Scenario B.  The entity specification {city: Paris} is refused by
    the constructor with [ValueError].  On a rule whose [entity_mappings]
    is {city: Paris} all the same, [apply] raises [AttributeError] on the
    entities [{type: city, value: Paris}] and [{type: city, value:
    London}], reading [entity.type] of a dictionary, and returns [False] on
    no entities. *)
Theorem entity_value_filter_scenario :
  DialogueStateRule_init "state"
    {[ "entities" := VDict [(VStr "city", VStr "Paris")] ]} = Raise ValueError
  ∧ apply city_is_paris (context "travel" "book" [entity "city" "Paris"])
    = Raise AttributeError
  ∧ apply city_is_paris (context "travel" "book" [entity "city" "London"])
    = Raise AttributeError
  ∧ apply city_is_paris (context "travel" "book" []) = Ok false.
Proof. by repeat split. Qed.

(** What the same rule does on entities that answer attribute access: the
    outcomes Scenario B expects. *)
Lemma entity_value_filter_attr_entities :
  apply city_is_paris (context "travel" "book" [attr_entity "city" "Paris"]) = Ok true
  ∧ apply city_is_paris (context "travel" "book" [attr_entity "city" "London"]) = Ok false
  ∧ apply city_is_paris (context "travel" "book" [attr_entity "date" "Paris"]) = Ok false.
Proof. by repeat split. Qed.

(** C4.  Scenario C.  The entity specification [city, date] is refused by
    the constructor with [ValueError].  On a rule whose [entity_types] is
    {city, date} all the same, [apply] raises [AttributeError], reading
    [context.entity_types] of a dictionary, both on a context with a city
    entity only and on one with city, date and currency entities. *)
Theorem entity_type_filter_scenario :
  DialogueStateRule_init "state"
    {[ "entities" := VList [VStr "city"; VStr "date"] ]} = Raise ValueError
  ∧ apply city_and_date (context "travel" "book" [entity "city" "Paris"])
    = Raise AttributeError
  ∧ apply city_and_date
      (context "travel" "book"
         [entity "city" "Paris"; entity "date" "today"; entity "currency" "EUR"])
    = Raise AttributeError.
Proof. by repeat split. Qed.

(** ** Complexity *)

Lemma complexity_counted r :
  complexity r
  = flag (counted r).1.1.1 1 + flag (counted r).1.1.2 2
    + flag (counted r).1.2 4 + flag (counted r).2 8.
Proof.
  unfold complexity, counted, flag; simpl.
  destruct (truthy (domain r)), (truthy (intent r)),
    (entity_types r) as [[|]|], (entity_mappings r) as [[|]|]; reflexivity.
Qed.

Lemma truthy_not_none v : truthy v = true → is_none v = false.
Proof. by destruct v. Qed.

(** C5, as the code has it.  The complexity of a rule is the sum of the
    weights 1, 2, 4 and 8 of the domain, intent, entity-type and
    entity-value filters that are set to a true (non-empty) value; it lies
    between 0 and 15; setting a filter that was unset never lowers it;
    rules of equal complexity count the same filters; when every filter
    that is present is non-empty it is the bit-flag sum over the filters
    present, and it is never more than that sum. *)
Theorem complexity_bit_flags (r : DialogueStateRule) :
  complexity r
  = flag (counted r).1.1.1 1 + flag (counted r).1.1.2 2
    + flag (counted r).1.2 4 + flag (counted r).2 8
  ∧ 0 ≤ complexity r ≤ 15
  ∧ (∀ r', adds_filters r r' → complexity r ≤ complexity r')
  ∧ (∀ r', complexity r' = complexity r → counted r' = counted r)
  ∧ (counted r = present r → complexity r = specificity_spec r)
  ∧ complexity r ≤ specificity_spec r.
Proof.
  split; [apply complexity_counted|]. split; [|split; [|split; [|split]]].
  - rewrite complexity_counted. unfold flag.
    destruct (counted r) as [[[[] []] []] []]; simpl; lia.
  - intros r' (Hd & Hi & Ht & Hm). rewrite !complexity_counted.
    unfold counted, flag; simpl.
    assert (Hmono : ∀ (b b' : bool) w, 0 ≤ w → (b = false ∨ b' = b) →
              (if b then w else 0) ≤ (if b' then w else 0)).
    { intros b b' w Hw [->| ->]; [destruct b'|destruct b]; lia. }
    repeat apply Z.add_le_mono; apply Hmono; try lia.
    + destruct Hd as [->| ->]; auto.
    + destruct Hi as [->| ->]; auto.
    + destruct Ht as [->| ->]; auto.
    + destruct Hm as [->| ->]; auto.
  - intros r'. rewrite !complexity_counted. unfold flag.
    destruct (counted r) as [[[[] []] []] []], (counted r') as [[[[] []] []] []];
      simpl; intros; (reflexivity || lia).
  - intros Hall. rewrite complexity_counted, Hall.
    unfold present, specificity_spec, flag; simpl.
    by destruct (is_none (domain r)), (is_none (intent r)),
         (entity_types r), (entity_mappings r).
  - rewrite complexity_counted. unfold counted, specificity_spec, flag; simpl.
    pose proof (truthy_not_none (domain r)) as Hd.
    pose proof (truthy_not_none (intent r)) as Hi.
    destruct (truthy (domain r)); [rewrite Hd by done|];
      (destruct (truthy (intent r)); [rewrite Hi by done|]);
      destruct (is_none (domain r)), (is_none (intent r)),
        (entity_types r) as [[|]|], (entity_mappings r) as [[|]|]; simpl; lia.
Qed.

(** C5 as stated fails on a rule whose domain filter is the empty string:
    the constructor accepts it, the filter is present and [apply] checks
    it, and the complexity is 0 where the bit-flag sum over the present
    filters is 1. *)
Lemma empty_domain_not_counted :
  DialogueStateRule_init "state" {[ "domain" := VStr "" ]} = Ok empty_domain
  ∧ present empty_domain = (true, false, false, false)
  ∧ apply empty_domain (context "weather" "forecast" []) = Ok false
  ∧ specificity_spec empty_domain = 1
  ∧ complexity empty_domain = 0
  ∧ complexity empty_domain ≠ specificity_spec empty_domain.
Proof. by repeat split. Qed.

Lemma complexity_bit_flags_witness :
  complexity (rule_with None None) ≤ complexity city_and_date
  ∧ complexity (rule_with None None) = specificity_spec (rule_with None None).
Proof.
  split.
  - destruct (complexity_bit_flags (rule_with None None)) as (_ & _ & Hmono & _).
    apply Hmono. unfold adds_filters; simpl.
    repeat split; by left.
  - destruct (complexity_bit_flags (rule_with None None)) as (_ & _ & _ & _ & Hspec & _).
    apply Hspec. reflexivity.
Defined.

(** ** Handler table *)

(** C7.  Registering under a name that already has a handler, with
    keyword arguments that name no parameter of the call and a rule
    specification the constructor accepts: a handler that is another
    object raises [AssertionError] from the registration itself and leaves
    the table as it was (the rule list has the new rule by then); a
    handler of the same identity is stored over the old entry and the
    registration succeeds; and when it is the very handler already stored
    the table does not change. *)
Theorem handler_conflict (name : option string) (n : string) (old new : handler)
    (kwargs : gmap string value) (rule : DialogueStateRule) (dm : DialogueManager) :
  call_clash kwargs = false →
  resolve_name name (Some new) = Ok n →
  DialogueStateRule_init n kwargs = Ok rule →
  handler_map dm !! n = Some old →
  (h_id new ≠ h_id old →
     ∃ dm', add_dialogue_rule name (Some new) kwargs dm = (Raise AssertionError, dm')
            ∧ handler_map dm' = handler_map dm
            ∧ rules dm' = sort_by_key complexity (rules dm ++ [rule]))
  ∧ (h_id new = h_id old →
     ∃ dm', add_dialogue_rule name (Some new) kwargs dm = (Ok tt, dm')
            ∧ handler_map dm' = <[n := new]> (handler_map dm))
  ∧ (new = old →
     ∃ dm', add_dialogue_rule name (Some new) kwargs dm = (Ok tt, dm')
            ∧ handler_map dm' = handler_map dm).
Proof.
  intros Hclash Hname Hrule Hold. unfold add_dialogue_rule.
  rewrite Hclash, Hname, Hrule; simpl. rewrite Hold. unfold handler_ne.
  split; [|split].
  - intros Hne. apply Nat.eqb_neq in Hne. rewrite Nat.eqb_sym, Hne; simpl. eauto.
  - intros Heq. apply Nat.eqb_eq in Heq. rewrite Nat.eqb_sym, Heq; simpl. eauto.
  - intros ->. rewrite Nat.eqb_refl; simpl. eexists. split; [done|]; simpl.
    by apply insert_id.
Qed.

(** Scenario E on a fresh manager: "greet" registered with one handler,
    then with a second handler object, then with the first one again. *)
Lemma handler_conflict_witness :
  (∃ dm', add_dialogue_rule (Some "greet") (Some (greeter 2)) ∅ greet_registered
          = (Raise AssertionError, dm')
          ∧ handler_map dm' = handler_map greet_registered
          ∧ rules dm' = sort_by_key complexity (rules greet_registered ++ [greet_rule]))
  ∧ (∃ dm', add_dialogue_rule None (Some (greeter 1)) ∅ greet_registered
            = (Ok tt, dm')
            ∧ handler_map dm' = handler_map greet_registered).
Proof.
  split.
  - apply (handler_conflict (Some "greet") "greet" (greeter 1) (greeter 2) ∅
             greet_rule greet_registered); [reflexivity..|].
    simpl. lia.
  - apply (handler_conflict None "greet" (greeter 1) (greeter 1) ∅
             greet_rule greet_registered); reflexivity.
Defined.

(** A keyword that names a parameter of the call is refused before
    anything is registered, whatever handler the name has. *)
Lemma keyword_clash_refused name h kwargs dm :
  call_clash kwargs = true →
  add_dialogue_rule name h kwargs dm = (Raise TypeError, dm).
Proof. intros Hclash. unfold add_dialogue_rule. by rewrite Hclash. Qed.

Lemma greet_registered_spec :
  add_dialogue_rule (Some "greet") (Some (greeter 1)) ∅ DialogueManager_init
  = (Ok tt, greet_registered).
Proof. reflexivity. Qed.

(** ** Rule construction *)

Lemma init_ignores_key name key v kwargs :
  key ∉ rule_keys →
  DialogueStateRule_init name (<[key := v]> kwargs) = DialogueStateRule_init name kwargs.
Proof.
  intros Hkey. unfold DialogueStateRule_init, init_clash, has_key, resolve_entities.
  assert (∀ k, k ∈ rule_keys → <[key := v]> kwargs !! k = kwargs !! k) as Hsame.
  { intros k Hk. apply lookup_insert_ne. intros ->. done. }
  rewrite !Hsame; [done|unfold rule_keys; set_solver..].
Qed.

(** C8, as the code has it.  A specification with both [entity] and
    [entities] is always refused: by the constructor, and by a
    registration, which raises before the rule is appended and leaves the
    manager as it was.  The error is [ValueError], unless a keyword names
    a parameter of the call, which is refused with [TypeError] before the
    specification is looked at.  No other key is read by the constructor,
    so [domains] next to [domain], or [intents] next to [intent], changes
    nothing and raises nothing. *)
Theorem singular_and_plural (n : string) (kwargs : gmap string value) :
  (is_Some (kwargs !! "entity") → is_Some (kwargs !! "entities") →
     DialogueStateRule_init n kwargs
     = Raise (if init_clash kwargs then TypeError else ValueError)
     ∧ ∀ name h dm, resolve_name name h = Ok n →
         add_dialogue_rule name h kwargs dm
         = (Raise (if call_clash kwargs || init_clash kwargs
                   then TypeError else ValueError), dm))
  ∧ (∀ v, DialogueStateRule_init n (<[ "domains" := v ]> kwargs)
          = DialogueStateRule_init n kwargs)
  ∧ (∀ v, DialogueStateRule_init n (<[ "intents" := v ]> kwargs)
          = DialogueStateRule_init n kwargs).
Proof.
  split; [|split].
  - intros [e He] [es Hes].
    assert (DialogueStateRule_init n kwargs
            = Raise (if init_clash kwargs then TypeError else ValueError)) as Hinit.
    { unfold DialogueStateRule_init, resolve_entities.
      destruct (init_clash kwargs); [done|]. by rewrite He, Hes. }
    split; [done|]. intros name h dm Hname.
    unfold add_dialogue_rule. destruct (call_clash kwargs); [done|].
    rewrite Hname, Hinit. simpl. by destruct (init_clash kwargs).
  - intros v. apply init_ignores_key.
    apply (bool_decide_unpack _). by vm_compute.
  - intros v. apply init_ignores_key.
    apply (bool_decide_unpack _). by vm_compute.
Qed.

(** C8 as stated fails for [domain] with [domains] and for [intent] with
    [intents]: the constructor returns the rule of the singular key, and a
    registration with such a specification succeeds. *)
Lemma domain_and_domains_accepted :
  DialogueStateRule_init "state" domain_and_domains
  = Ok {| dialogue_state := "state"; domain := VStr "weather"; intent := VNone;
          entity_types := None; entity_mappings := None |}
  ∧ DialogueStateRule_init "state" intent_and_intents
    = Ok {| dialogue_state := "state"; domain := VNone; intent := VStr "forecast";
            entity_types := None; entity_mappings := None |}
  ∧ fst (add_dialogue_rule (Some "state") (Some (greeter 1)) domain_and_domains
           DialogueManager_init) = Ok tt.
Proof. by repeat split. Qed.

Lemma singular_and_plural_witness :
  DialogueStateRule_init "state" entity_and_entities = Raise ValueError
  ∧ ∀ name h dm, resolve_name name h = Ok "state" →
      add_dialogue_rule name h entity_and_entities dm = (Raise ValueError, dm).
Proof.
  apply (singular_and_plural "state" entity_and_entities);
    eexists; reflexivity.
Defined.

(** ** Templates *)

Section Templates.
Context `{Builtins}.

(** The scan puts [Extended] and [Malformed] last only, so a field it
    reports is a field the rendering reaches unless an earlier one
    raises. *)
Lemma render_missing_key st s slots key :
  In (Field key) (parse_format st s) →
  slots !! key = None →
  ∃ e, render (parse_format st s) slots = Raise e.
Proof.
  intros Hin Hkey. revert st Hin.
  induction s as [|c s IH]; intros st Hin.
  - destruct st; simpl in Hin; intuition discriminate.
  - assert (Hlit : ∀ a st', In (Field key) (Literal a :: parse_format st' s) →
              ∃ e, render (Literal a :: parse_format st' s) slots = Raise e).
    { intros a st' [Hd|Hd]; [discriminate|].
      destruct (IH _ Hd) as [e He]. exists e. simpl. by rewrite He. }
    assert (Hfield : ∀ acc, In (Field key)
              (field_char acc c s (parse_format InText s)
                 (λ acc', parse_format (InField acc') s)) →
              ∃ e, render (field_char acc c s (parse_format InText s)
                             (λ acc', parse_format (InField acc') s)) slots = Raise e).
    { intros acc. unfold field_char.
      destruct (Ascii.eqb c "}"); [destruct (keyword_name acc)|destruct (plain_char c)].
      - intros [Hd|Hd]; simpl.
        + injection Hd as ->. rewrite Hkey. eauto.
        + destruct (slots !! acc); [|eauto].
          destruct (IH _ Hd) as [e He]. exists e. by rewrite He.
      - simpl. intuition discriminate.
      - apply IH.
      - simpl. intuition discriminate. }
    destruct st; simpl in Hin |- *.
    + destruct (Ascii.eqb c "{"); [by apply IH|].
      destruct (Ascii.eqb c "}"); [by apply IH|]. by apply Hlit.
    + destruct (Ascii.eqb c "{"); [by apply Hlit|]. by apply Hfield.
    + destruct (Ascii.eqb c "}"); [by apply Hlit|].
      simpl in Hin. intuition discriminate.
    + by apply Hfield.
Qed.

Lemma render_first_missing before key after slots :
  Forall (renders slots) before →
  slots !! key = None →
  render (before ++ Field key :: after) slots = Raise (KeyError (VStr key)).
Proof.
  intros Hbefore Hkey.
  induction Hbefore as [|seg before Hseg _ IH]; simpl.
  - by rewrite Hkey.
  - destruct seg as [c|name| |]; simpl in Hseg; try done.
    + by rewrite IH.
    + destruct Hseg as [v ->]. by rewrite IH.
Qed.

Lemma append_cons c s t : String c s +:+ t = String c (s +:+ t).
Proof. reflexivity. Qed.

Lemma append_empty_r s : s +:+ "" = s.
Proof. induction s as [|c s IH]; [done|]. by rewrite append_cons, IH. Qed.

Lemma append_snoc s c t : s +:+ String c t = (s +:+ String c "") +:+ t.
Proof. induction s as [|a s IH]; [done|]. by rewrite !append_cons, IH. Qed.

Lemma not_brace_plain c :
  plain_char c = true → Ascii.eqb c "{" = false ∧ Ascii.eqb c "}" = false.
Proof.
  unfold plain_char, special_char; simpl. intros [_ Hs]%andb_prop.
  apply negb_true_iff in Hs.
  by destruct (Ascii.eqb c "{"), (Ascii.eqb c "}").
Qed.

(** Literal text in front of a plain field scans to its characters and
    the field. *)
Lemma parse_format_literal pre rest :
  brace_free pre = true →
  parse_format InText (pre +:+ rest)
  = map Literal (list_ascii_of_string pre) ++ parse_format InText rest.
Proof.
  unfold brace_free. induction pre as [|c pre IH]; [done|].
  rewrite append_cons; simpl.
  intros [[Ho Hc]%andb_prop Hpre]%andb_prop.
  apply negb_true_iff in Ho, Hc. rewrite Ho, Hc. by rewrite IH.
Qed.

Lemma parse_format_name acc c key rest :
  forallb plain_char (list_ascii_of_string (String c key)) = true →
  keyword_name (acc +:+ String c key) = true →
  field_char acc c (key +:+ String "}" rest)
    (parse_format InText (key +:+ String "}" rest))
    (λ acc', parse_format (InField acc') (key +:+ String "}" rest))
  = Field (acc +:+ String c key) :: parse_format InText rest.
Proof.
  revert acc c. induction key as [|k key IH]; intros acc c.
  - simpl. intros [Hc _]%andb_prop Hname.
    destruct (not_brace_plain c Hc) as [_ Hclose].
    unfold field_char. rewrite Hclose, Hc. simpl. unfold field_char. simpl.
    by rewrite Hname.
  - intros Hplain Hname. simpl in Hplain.
    apply andb_prop in Hplain as [Hc Hkey].
    destruct (not_brace_plain c Hc) as [_ Hclose].
    unfold field_char at 1. rewrite Hclose, Hc.
    rewrite append_cons. simpl. rewrite (append_snoc acc c (String k key)).
    apply IH; [done|]. by rewrite <- append_snoc.
Qed.

Lemma parse_format_placeholder pre key rest :
  brace_free pre = true →
  plain_name key = true →
  parse_format InText (pre +:+ String "{" (key +:+ String "}" rest))
  = map Literal (list_ascii_of_string pre) ++ Field key :: parse_format InText rest.
Proof.
  intros Hpre [Hkey Hname]%andb_prop. rewrite parse_format_literal by done. f_equal.
  destruct key as [|c key]; [done|].
  rewrite append_cons. simpl.
  pose proof Hkey as [Hc _]%andb_prop.
  destruct (not_brace_plain c Hc) as [-> _].
  by apply (parse_format_name "" c key rest).
Qed.

Lemma render_literal l segs slots :
  render (map Literal l ++ segs) slots
  = out ← render segs slots; Ok (string_of_list_ascii l +:+ out).
Proof.
  induction l as [|c l IH]; simpl.
  - by destruct (render segs slots).
  - rewrite IH. by destruct (render segs slots).
Qed.

(** One plain field between texts without braces: the slot's string takes
    the place of the field. *)
Lemma str_format_placeholder pre key post v slots :
  brace_free pre = true →
  plain_name key = true →
  brace_free post = true →
  slots !! key = Some (VStr v) →
  str_format (pre +:+ String "{" (key +:+ String "}" post)) slots
  = Ok (pre +:+ v +:+ post).
Proof.
  intros Hpre Hkey Hpost Hslot. unfold str_format.
  rewrite parse_format_placeholder by done. rewrite render_literal.
  simpl. rewrite Hslot.
  rewrite <- (append_empty_r post) at 1.
  rewrite parse_format_literal by done. rewrite render_literal. simpl.
  by rewrite !string_of_list_ascii_of_string, append_empty_r.
Qed.

End Templates.

(** ** Responder *)

Lemma random_choice_In draw seq :
  seq ≠ [] → ∃ x, random_choice draw seq = Ok x ∧ In x seq.
Proof.
  intros Hseq. unfold random_choice.
  destruct seq as [|y seq]; [done|].
  destruct (nth_error (y :: seq) (draw mod length (y :: seq))%nat) as [x|] eqn:Hnth.
  - exists x. split; [done|]. by eapply nth_error_In.
  - apply nth_error_None in Hnth.
    pose proof (Nat.mod_upper_bound draw (length (y :: seq))) as Hlt.
    simpl in *. lia.
Qed.

Lemma _choose_chosen_from draw text :
  nonempty_text text → ∃ chosen, _choose draw text = Ok chosen ∧ chosen_from text chosen.
Proof.
  destruct text; simpl; eauto using random_choice_In.
Qed.

Section ResponderProperties.
Context `{Builtins}.

(** What [_reply] does once the variant is chosen: one action appended
    after the ones already there, or the error of the substitution and the
    responder as it was. *)
Lemma _reply_chosen draw text action self chosen :
  _choose draw text = Ok chosen →
  _reply draw text action self
  = match format chosen (slots self) with
    | Ok message => (Ok tt, appended self (client_action action message))
    | Raise e => (Raise e, self)
    end.
Proof.
  intros Hchoose. unfold _reply. rewrite Hchoose.
  by destruct (format chosen (slots self)).
Qed.

(** C9, as the code has it.  For a string, or a tuple, list or set that is
    not empty, [reply] and [prompt] settle on one text, the input itself
    when it is not a collection and an element of it otherwise; when the
    substitution of the slots into that text succeeds, exactly one action,
    named show-reply (show-prompt for [prompt]) and carrying the formatted
    text, is appended after the actions already there, and when it raises
    nothing is appended.  A text with one field [{key}] between texts
    without braces is formatted by putting the slot's string in the place
    of the field. *)
Theorem reply_appends_one (draw : nat) (text : value) (self : DialogueResponder) :
  nonempty_text text →
  ∃ chosen,
    _choose draw text = Ok chosen
    ∧ chosen_from text chosen
    ∧ reply draw text self
      = match format chosen (slots self) with
        | Ok message => (Ok tt, appended self (client_action "show-reply" message))
        | Raise e => (Raise e, self)
        end
    ∧ prompt draw text self
      = match format chosen (slots self) with
        | Ok message => (Ok tt, appended self (client_action "show-prompt" message))
        | Raise e => (Raise e, self)
        end
    ∧ (∀ pre key post v,
         chosen = VStr (pre +:+ String "{" (key +:+ String "}" post)) →
         brace_free pre = true → plain_name key = true → brace_free post = true →
         slots self !! key = Some (VStr v) →
         reply draw text self
         = (Ok tt, appended self (client_action "show-reply" (pre +:+ v +:+ post)))
         ∧ prompt draw text self
           = (Ok tt, appended self (client_action "show-prompt" (pre +:+ v +:+ post)))).
Proof.
  intros Hne. destruct (_choose_chosen_from draw text Hne) as (chosen & Hc & Hfrom).
  exists chosen. split; [done|]. split; [done|].
  unfold reply, prompt. rewrite !(_reply_chosen _ _ _ _ _ Hc).
  split; [done|]. split; [done|].
  intros pre key post v -> Hpre Hkey Hpost Hslot. simpl.
  by rewrite (str_format_placeholder pre key post v _ Hpre Hkey Hpost Hslot).
Qed.

(** C10.  When the text [reply] or [prompt] settles on has a field
    [{key}] and the slots have no [key], the call raises and the responder
    is as it was before the call; the error is [KeyError] for that key
    when everything in front of the field renders, as it does when the
    field follows text without braces. *)
Theorem missing_slot_raises (draw : nat) (text : value) (s key : string)
    (self : DialogueResponder) :
  _choose draw text = Ok (VStr s) →
  slots self !! key = None →
  (In (Field key) (parse_format InText s) →
     ∃ e, reply draw text self = (Raise e, self)
          ∧ prompt draw text self = (Raise e, self))
  ∧ (∀ before after,
       parse_format InText s = before ++ Field key :: after →
       Forall (renders (slots self)) before →
       reply draw text self = (Raise (KeyError (VStr key)), self)
       ∧ prompt draw text self = (Raise (KeyError (VStr key)), self))
  ∧ (∀ pre rest,
       s = pre +:+ String "{" (key +:+ String "}" rest) →
       brace_free pre = true →
       plain_name key = true →
       reply draw text self = (Raise (KeyError (VStr key)), self)
       ∧ prompt draw text self = (Raise (KeyError (VStr key)), self)).
Proof.
  intros Hchoose Hkey. unfold reply, prompt.
  rewrite !(_reply_chosen _ _ _ _ _ Hchoose). simpl. unfold str_format.
  assert (Hfirst : ∀ before after,
            parse_format InText s = before ++ Field key :: after →
            Forall (renders (slots self)) before →
            render (parse_format InText s) (slots self) = Raise (KeyError (VStr key))).
  { intros before after -> Hbefore. by apply render_first_missing. }
  split; [|split].
  - intros Hin.
    destruct (render_missing_key InText s (slots self) key Hin Hkey) as [e He].
    exists e. by rewrite He.
  - intros before after Hparse Hbefore. by rewrite (Hfirst _ _ Hparse Hbefore).
  - intros pre rest -> Hpre Hname.
    rewrite (Hfirst _ _ (parse_format_placeholder pre key rest Hpre Hname)); [done|].
    induction (list_ascii_of_string pre); by constructor.
Qed.

End ResponderProperties.

(** C9 as stated fails on an empty collection: [random.choice] raises
    [IndexError] and no action is appended. *)
Lemma reply_empty_collection :
  @reply plain_builtins 0 (VList []) (DialogueResponder_init ana)
  = (Raise IndexError, DialogueResponder_init ana)
  ∧ client_actions
      (snd (@reply plain_builtins 0 (VTuple []) (DialogueResponder_init ana))) = [].
Proof. by split. Qed.

(** Scenario D: the two variants of the greeting, by the draw. *)
Lemma reply_appends_one_witness :
  @reply plain_builtins 1 greetings (DialogueResponder_init ana)
  = (Ok tt, appended (DialogueResponder_init ana)
              (client_action "show-reply" "Hello Ana"))
  ∧ @prompt plain_builtins 1 greetings (DialogueResponder_init ana)
    = (Ok tt, appended (DialogueResponder_init ana)
                (client_action "show-prompt" "Hello Ana")).
Proof.
  destruct (@reply_appends_one plain_builtins 1 greetings (DialogueResponder_init ana))
    as (chosen & Hchosen & _ & _ & _ & Hfield); [simpl; discriminate|].
  apply (Hfield "Hello " "name" "" "Ana"); try reflexivity.
  injection Hchosen as <-. reflexivity.
Defined.

Lemma scenario_D :
  @reply plain_builtins 0 greetings (DialogueResponder_init ana)
  = (Ok tt, {| slots := ana; client_actions := [client_action "show-reply" "Hi Ana"] |})
  ∧ @reply plain_builtins 1 greetings (DialogueResponder_init ana)
    = (Ok tt, {| slots := ana;
                 client_actions := [client_action "show-reply" "Hello Ana"] |}).
Proof. by split. Qed.

Lemma missing_slot_raises_witness :
  @reply plain_builtins 0 greetings (DialogueResponder_init ∅)
  = (Raise (KeyError (VStr "name")), DialogueResponder_init ∅)
  ∧ @prompt plain_builtins 0 greetings (DialogueResponder_init ∅)
    = (Raise (KeyError (VStr "name")), DialogueResponder_init ∅).
Proof.
  refine (proj2 (proj2 (@missing_slot_raises plain_builtins 0 greetings "Hi {name}"
                          "name" (DialogueResponder_init ∅) _ _))
            "Hi " "" _ _ _); reflexivity.
Defined.

(** Actions pile up in call order; a repeated reply is a second action. *)
Lemma reply_twice :
  snd (@reply plain_builtins 0 (VStr "Bye")
         (snd (@prompt plain_builtins 0 (VStr "Hi {name}")
                 (snd (@reply plain_builtins 0 (VStr "Bye")
                         (DialogueResponder_init ana))))))
  = {| slots := ana;
       client_actions := [client_action "show-reply" "Bye";
                          client_action "show-prompt" "Hi Ana";
                          client_action "show-reply" "Bye"] |}.
Proof. reflexivity. Qed.

(** * Further properties *)

(** ** The scan *)

Lemma first_match_app l1 l2 ctx :
  first_match (l1 ++ l2) ctx
  = match first_match l1 ctx with
    | Ok None => first_match l2 ctx
    | outcome => outcome
    end.
Proof.
  induction l1 as [|r l1 IH]; simpl; [done|].
  destruct (apply r ctx) as [[]|e]; simpl; [done| |done]. apply IH.
Qed.

Lemma first_match_cases rs ctx :
  match first_match rs ctx with
  | Ok None => Forall (λ r, apply r ctx = Ok false) rs
  | Ok (Some n) =>
      ∃ before r after,
        rs = before ++ r :: after
        ∧ Forall (λ r, apply r ctx = Ok false) before
        ∧ apply r ctx = Ok true ∧ dialogue_state r = n
  | Raise e =>
      ∃ before r after,
        rs = before ++ r :: after
        ∧ Forall (λ r, apply r ctx = Ok false) before
        ∧ apply r ctx = Raise e
  end.
Proof.
  induction rs as [|r rs IH]; simpl; [constructor|].
  destruct (apply r ctx) as [[]|e] eqn:Hr; simpl.
  - by exists [], r, rs.
  - destruct (first_match rs ctx) as [[n|]|e].
    + destruct IH as (before & r' & after & -> & Hb & Hr' & Hn).
      exists (r :: before), r', after. by repeat split; [constructor|..].
    + by constructor.
    + destruct IH as (before & r' & after & -> & Hb & Hr').
      exists (r :: before), r', after. by repeat split; [constructor|..].
  - by exists [], r, rs.
Qed.

(** X1.  The three outcomes of the scan of [apply_handler].  It selects a
    state exactly when some rule applies and every rule in front of it
    returns [False], and the state is that rule's; it selects none exactly
    when every rule returns [False]; and it raises exactly the error of
    the first rule whose [apply] raises, when no rule in front of that one
    applies. *)
Theorem scan_outcomes (rs : list DialogueStateRule) (ctx : value) :
  (∀ n, first_match rs ctx = Ok (Some n)
        ↔ ∃ before r after,
            rs = before ++ r :: after
            ∧ Forall (λ r, apply r ctx = Ok false) before
            ∧ apply r ctx = Ok true ∧ dialogue_state r = n)
  ∧ (first_match rs ctx = Ok None ↔ Forall (λ r, apply r ctx = Ok false) rs)
  ∧ (∀ e, first_match rs ctx = Raise e
          ↔ ∃ before r after,
              rs = before ++ r :: after
              ∧ Forall (λ r, apply r ctx = Ok false) before
              ∧ apply r ctx = Raise e).
Proof.
  pose proof (first_match_cases rs ctx) as Hcases.
  split; [|split].
  - intros n. split.
    + intros Hm. by rewrite Hm in Hcases.
    + intros (before & r & after & -> & Hb & Hr & <-).
      by apply first_match_first_true.
  - split.
    + intros Hm. by rewrite Hm in Hcases.
    + apply first_match_none.
  - intros e. split.
    + intros Hm. by rewrite Hm in Hcases.
    + intros (before & r & after & -> & Hb & Hr).
      rewrite first_match_app, (first_match_none _ _ Hb). simpl. by rewrite Hr.
Qed.

(** ** Dispatch *)

(** X2.  A dispatch that returns has selected a state: the response names
    the state of the first rule that applies, that state has a handler in
    the table, the handler takes three arguments and returned normally on
    a fresh responder with empty slots, and the response holds the actions
    of that responder.  No response has the state [None]. *)
Theorem dispatch_names_a_state (ctx : value) (dm : DialogueManager) (resp : Response) :
  apply_handler ctx dm = Ok resp →
  ∃ n h responder,
    first_match (rules dm) ctx = Ok (Some n)
    ∧ response_state resp = Some n
    ∧ handler_map dm !! n = Some h
    ∧ h_params h = 3%nat
    ∧ h_body h ctx (DialogueResponder_init ∅) = (Ok tt, responder)
    ∧ response_actions resp = client_actions responder.
Proof.
  unfold apply_handler. intros Hrun.
  apply bind_Ok in Hrun as (state & Hscan & Hrun).
  apply bind_Ok in Hrun as (h & Hh & Hrun).
  unfold call_handler in Hrun.
  destruct (h_params h =? 3)%nat eqn:Hparams.
  - destruct (h_body h ctx (DialogueResponder_init ∅)) as [[[]|e] responder] eqn:Hbody;
      [|done].
    injection Hrun as <-. apply Nat.eqb_eq in Hparams.
    destruct state as [n|].
    + destruct (handler_map dm !! n) as [h'|] eqn:Hlookup; [|done].
      injection Hh as ->. by exists n, h, responder.
    + injection Hh as <-. done.
  - done.
Qed.

Lemma dispatch_names_a_state_witness :
  ∃ n h responder,
    first_match (rules greet_weather) weather_forecast = Ok (Some n)
    ∧ Some "greet" = Some n
    ∧ handler_map greet_weather !! n = Some h
    ∧ h_params h = 3%nat
    ∧ h_body h weather_forecast (DialogueResponder_init ∅) = (Ok tt, responder)
    ∧ [client_action "show-reply" "hello"] = client_actions responder.
Proof.
  apply (dispatch_names_a_state weather_forecast greet_weather
           {| response_state := Some "greet";
              response_actions := [client_action "show-reply" "hello"] |}).
  reflexivity.
Defined.

(** ** Order of selection *)

Lemma sorted_app_le {A} (key : A -> Z) before x after :
  Sorted (key_le key) (before ++ x :: after) →
  Forall (λ y, key x ≤ key y) after.
Proof.
  intros Hs. apply Sorted_StronglySorted in Hs.
  2: { intros a b c. unfold key_le. lia. }
  induction before as [|b before IH]; simpl in Hs.
  - by apply StronglySorted_inv in Hs as [_ Hs].
  - apply StronglySorted_inv in Hs as [Hs _]. by apply IH.
Qed.

Lemma registered_rules_constructed regs dm :
  register_all regs DialogueManager_init = (Ok tt, dm) →
  Forall (λ r, entity_types r = None ∧ entity_mappings r = None) (rules dm).
Proof.
  intros Hrun. apply register_all_rules in Hrun as (rs & Hrs & _ & Hperm & _);
    [|constructor].
  simpl in Hperm. rewrite Hperm. clear Hperm.
  induction Hrs as [|r rule regs rs Hr _ IH]; constructor; [|done].
  unfold registered_rule in Hr. apply bind_Ok in Hr as (n & _ & Hinit).
  by apply init_no_entity_filter in Hinit as (? & ? & _).
Qed.

Lemma first_match_least rs ctx n :
  Sorted (key_le complexity) rs →
  first_match rs ctx = Ok (Some n) →
  ∃ r, In r rs ∧ dialogue_state r = n ∧ apply r ctx = Ok true
       ∧ ∀ r', In r' rs → apply r' ctx = Ok true → complexity r ≤ complexity r'.
Proof.
  intros Hsorted Hscan.
  pose proof (first_match_cases rs ctx) as Hcases. rewrite Hscan in Hcases.
  destruct Hcases as (before & r & after & -> & Hbefore & Hr & Hn).
  exists r. split; [apply in_app_iff; right; by left|].
  split; [done|]. split; [done|].
  intros r' [Hin|[->|Hin]]%in_app_iff Hr'.
  - rewrite Forall_forall in Hbefore. apply list_elem_of_In, Hbefore in Hin. congruence.
  - done.
  - pose proof (sorted_app_le complexity before r after Hsorted) as Hle.
    rewrite Forall_forall in Hle. by apply Hle, list_elem_of_In.
Qed.

Lemma complexity_nonneg r : 0 ≤ complexity r.
Proof.
  rewrite complexity_counted. unfold flag.
  destruct (counted r) as [[[[] []] []] []]; simpl; lia.
Qed.

(** X3.  On a manager built by registrations, the rule a context selects
    is one of least complexity among the rules that apply to it: no rule
    that applies has a smaller complexity than the selected one. *)
Theorem least_complex_match_selected (regs : list registration)
    (dm : DialogueManager) (ctx : value) (n : string) :
  register_all regs DialogueManager_init = (Ok tt, dm) →
  first_match (rules dm) ctx = Ok (Some n) →
  ∃ r, In r (rules dm) ∧ dialogue_state r = n ∧ apply r ctx = Ok true
       ∧ ∀ r', In r' (rules dm) → apply r' ctx = Ok true →
               complexity r ≤ complexity r'.
Proof.
  intros Hrun Hscan.
  apply register_all_rules in Hrun as (_ & _ & Hsorted & _); [|constructor].
  by apply first_match_least.
Qed.

Lemma least_complex_match_selected_witness :
  ∃ r, In r (rules three_registered) ∧ dialogue_state r = "general"
       ∧ apply r weather_forecast = Ok true
       ∧ ∀ r', In r' (rules three_registered) → apply r' weather_forecast = Ok true →
               complexity r ≤ complexity r'.
Proof.
  apply (least_complex_match_selected three_registrations three_registered
           weather_forecast "general"); reflexivity.
Defined.

Lemma apply_no_filter r ctx :
  domain r = VNone → intent r = VNone →
  entity_types r = None → entity_mappings r = None →
  apply r ctx = Ok true.
Proof.
  intros Hd Hi Ht Hm. unfold apply, check_entity_types, check_entity_mappings.
  by rewrite Hd, Hi, Ht, Hm.
Qed.

(** X4.  Once a rule without filters is registered, it applies to every
    context and is among the first in the list: on no context does the
    scan select nothing, and the rule it selects has complexity 0, so no
    rule with a counted filter is selected again. *)
Theorem catch_all_shadows (regs : list registration) (dm : DialogueManager)
    (r0 : DialogueStateRule) (ctx : value) :
  register_all regs DialogueManager_init = (Ok tt, dm) →
  In r0 (rules dm) →
  domain r0 = VNone → intent r0 = VNone →
  first_match (rules dm) ctx ≠ Ok None
  ∧ ∀ n, first_match (rules dm) ctx = Ok (Some n) →
         ∃ r, In r (rules dm) ∧ dialogue_state r = n ∧ complexity r = 0.
Proof.
  intros Hrun Hin Hd Hi.
  pose proof (registered_rules_constructed regs dm Hrun) as Hall.
  rewrite Forall_forall in Hall.
  destruct (Hall r0) as [Ht Hm]; [by apply list_elem_of_In|].
  assert (apply r0 ctx = Ok true) as Hr0 by by apply apply_no_filter.
  assert (complexity r0 = 0) as H0.
  { unfold complexity. by rewrite Hd, Hi, Ht, Hm. }
  apply register_all_rules in Hrun as (_ & _ & Hsorted & _); [|constructor].
  split.
  - intros Hnone. pose proof (first_match_cases (rules dm) ctx) as Hcases.
    rewrite Hnone, Forall_forall in Hcases.
    apply list_elem_of_In, Hcases in Hin. congruence.
  - intros n Hscan.
    destruct (first_match_least _ _ _ Hsorted Hscan) as (r & Hr & Hn & _ & Hleast).
    exists r. split; [done|]. split; [done|].
    specialize (Hleast r0 Hin Hr0). pose proof (complexity_nonneg r). lia.
Qed.

(** Three registrations, the last one without filters: the context that
    selected "general" before now selects the rule without filters. *)
Lemma catch_all_shadows_witness :
  first_match (rules catch_all_registered) weather_forecast ≠ Ok None
  ∧ ∀ n, first_match (rules catch_all_registered) weather_forecast = Ok (Some n) →
         ∃ r, In r (rules catch_all_registered) ∧ dialogue_state r = n
              ∧ complexity r = 0.
Proof.
  apply (catch_all_shadows catch_all_registrations catch_all_registered
           (named_rule "anything" VNone VNone) weather_forecast); try reflexivity.
  simpl. by left.
Defined.

(** ** Registration outcomes *)

Lemma set_update_error s xs e : set_update s xs = Raise e → e = TypeError.
Proof.
  revert s. induction xs as [|x xs IH]; intros s; simpl; [done|].
  unfold set_add. destruct (hashable x); simpl; [apply IH|congruence].
Qed.

Lemma py_frozenset_error v e : py_frozenset v = Raise e → e = TypeError.
Proof.
  unfold py_frozenset. destruct (py_iter v) as [l|e'] eqn:Hiter; simpl.
  - apply set_update_error.
  - destruct v; simpl in Hiter; congruence.
Qed.

Lemma init_error name kwargs e :
  DialogueStateRule_init name kwargs = Raise e → e = ValueError ∨ e = TypeError.
Proof.
  unfold DialogueStateRule_init, resolve_entities.
  destruct (init_clash kwargs); [intros [= <-]; by right|].
  destruct (kwargs !! "entity") as [x|], (kwargs !! "entities") as [xs|]; simpl.
  - intros [= <-]. by left.
  - destruct (py_frozenset (VTuple [x])) eqn:Hf; simpl.
    + intros [= <-]. by left.
    + intros [= <-]. right. by eapply py_frozenset_error.
  - destruct (py_frozenset xs) eqn:Hf; simpl.
    + intros [= <-]. by left.
    + intros [= <-]. right. by eapply py_frozenset_error.
  - done.
Qed.

Lemma init_attributes name kwargs rule :
  DialogueStateRule_init name kwargs = Ok rule →
  dialogue_state rule = name
  ∧ domain rule = default VNone (kwargs !! "domain")
  ∧ intent rule = default VNone (kwargs !! "intent").
Proof.
  unfold DialogueStateRule_init. intros Hinit.
  destruct (init_clash kwargs); [done|].
  apply bind_Ok in Hinit as (v & _ & Hinit).
  apply bind_Ok in Hinit as ([types mappings] & _ & Hinit).
  by injection Hinit as <-.
Qed.

Lemma resolve_name_error name h e : resolve_name name h = Raise e → e = AttributeError.
Proof.
  unfold resolve_name. destruct name; [done|].
  destruct h as [f|]; [destruct (h_name f)|]; congruence.
Qed.

(** What a registration that returns has done. *)
Lemma add_dialogue_rule_success name h kwargs dm dm' :
  add_dialogue_rule name h kwargs dm = (Ok tt, dm') →
  ∃ n rule,
    resolve_name name h = Ok n
    ∧ DialogueStateRule_init n kwargs = Ok rule
    ∧ rules dm' = sort_by_key complexity (rules dm ++ [rule])
    ∧ handler_map dm'
      = match h with
        | Some f => <[n := f]> (handler_map dm)
        | None => handler_map dm
        end.
Proof.
  unfold add_dialogue_rule.
  destruct (call_clash kwargs); [done|].
  destruct (resolve_name name h) as [n|e] eqn:Hname; [|done].
  destruct (DialogueStateRule_init n kwargs) as [rule|e] eqn:Hinit; [|done].
  intros Hadd. exists n, rule. split; [done|]. split; [done|].
  destruct h as [f|]; simpl in Hadd.
  - destruct (handler_map dm !! n) as [old|];
      [destruct (handler_ne old f); [done|]|]; by injection Hadd as <-.
  - by injection Hadd as <-.
Qed.

(** X5.  A registration that raises never changes the handler table.  It
    leaves the whole manager as it was when the error is the name's
    ([AttributeError]) or the rule constructor's ([ValueError],
    [TypeError]); when it is the handler conflict ([AssertionError]) the
    rule list already holds the new rule. *)
Theorem failed_registration (name : option string) (h : option handler)
    (kwargs : gmap string value) (dm dm' : DialogueManager) (e : exn) :
  add_dialogue_rule name h kwargs dm = (Raise e, dm') →
  handler_map dm' = handler_map dm
  ∧ (e = AttributeError ∨ e = ValueError ∨ e = TypeError ∨ e = AssertionError)
  ∧ (e ≠ AssertionError → dm' = dm)
  ∧ (e = AssertionError →
       ∃ n rule old f,
         resolve_name name h = Ok n ∧ DialogueStateRule_init n kwargs = Ok rule
         ∧ h = Some f ∧ handler_map dm !! n = Some old ∧ h_id old ≠ h_id f
         ∧ rules dm' = sort_by_key complexity (rules dm ++ [rule])).
Proof.
  unfold add_dialogue_rule.
  destruct (call_clash kwargs).
  { intros [= <- <-]. repeat split; try done; auto. }
  destruct (resolve_name name h) as [n|e'] eqn:Hname.
  2: { intros [= <- <-]. apply resolve_name_error in Hname as ->.
       repeat split; [by left|done]. }
  destruct (DialogueStateRule_init n kwargs) as [rule|e'] eqn:Hinit.
  2: { intros [= <- <-].
       apply init_error in Hinit as [-> | ->]; repeat split; try done; auto. }
  destruct h as [f|]; simpl; [|done].
  destruct (handler_map dm !! n) as [old|] eqn:Hold; [|done].
  unfold handler_ne. destruct (h_id old =? h_id f)%nat eqn:Hid; simpl; [done|].
  intros [= <- <-]. simpl. apply Nat.eqb_neq in Hid.
  repeat split; [auto 6|done|].
  intros _. by exists n, rule, old, f.
Qed.

Lemma failed_registration_witness :
  handler_map (snd (add_dialogue_rule (Some "greet") (Some (greeter 2)) ∅
                      greet_registered))
  = handler_map greet_registered
  ∧ snd (add_dialogue_rule None None ∅ greet_registered) = greet_registered.
Proof.
  split.
  - apply (failed_registration (Some "greet") (Some (greeter 2)) ∅ greet_registered
             _ AssertionError). reflexivity.
  - apply (failed_registration None None ∅ greet_registered _ AttributeError);
      [reflexivity|discriminate].
Defined.

(** X6.  A registration that returns has stored its handler under the
    state name, which is the given name or, for the name [None], the
    handler's [__name__]; every other name keeps the handler it had; the
    rule list is one longer; and without a handler the table is as it
    was. *)
Theorem registered_handler_lookup (name : option string) (h : option handler)
    (kwargs : gmap string value) (dm dm' : DialogueManager) :
  add_dialogue_rule name h kwargs dm = (Ok tt, dm') →
  ∃ n,
    resolve_name name h = Ok n
    ∧ (∀ f, h = Some f → handler_map dm' !! n = Some f)
    ∧ (h = None → handler_map dm' = handler_map dm)
    ∧ (∀ m, m ≠ n → handler_map dm' !! m = handler_map dm !! m)
    ∧ (∃ rule, In rule (rules dm') ∧ dialogue_state rule = n)
    ∧ length (rules dm') = S (length (rules dm)).
Proof.
  intros (n & rule & Hname & Hinit & Hrules & Hmap)%add_dialogue_rule_success.
  exists n. split; [done|]. repeat split.
  - intros f ->. rewrite Hmap. apply lookup_insert_eq.
  - by intros ->.
  - intros m Hm. rewrite Hmap. destruct h; [by apply lookup_insert_ne|done].
  - exists rule. split; [|by apply init_attributes in Hinit as [? _]].
    apply list_elem_of_In. rewrite Hrules, sort_by_key_perm. set_solver.
  - rewrite Hrules, sort_by_key_perm, length_app. simpl. lia.
Qed.

(** "greet" registered on a fresh manager by the handler's own name. *)
Lemma registered_handler_lookup_witness :
  ∃ n,
    resolve_name None (Some (greeter 1)) = Ok n
    ∧ (∀ f, Some (greeter 1) = Some f → handler_map greet_registered !! n = Some f)
    ∧ (Some (greeter 1) = None →
         handler_map greet_registered = handler_map DialogueManager_init)
    ∧ (∀ m, m ≠ n →
         handler_map greet_registered !! m = handler_map DialogueManager_init !! m)
    ∧ (∃ rule, In rule (rules greet_registered) ∧ dialogue_state rule = n)
    ∧ length (rules greet_registered) = S (length (rules DialogueManager_init)).
Proof.
  apply (registered_handler_lookup None (Some (greeter 1)) ∅
           DialogueManager_init greet_registered). reflexivity.
Defined.

(** X7.  When every registration of a run gives a handler, every rule of
    the manager has a handler for its state afterwards, so the table
    lookup of a dispatch finds one for whatever state the scan selects. *)
Theorem registered_states_have_handlers (regs : list registration)
    (dm : DialogueManager) :
  Forall (λ r, is_Some (reg_handler r)) regs →
  register_all regs DialogueManager_init = (Ok tt, dm) →
  Forall (λ r, is_Some (handler_map dm !! dialogue_state r)) (rules dm)
  ∧ ∀ ctx n, first_match (rules dm) ctx = Ok (Some n) →
             is_Some (handler_map dm !! n).
Proof.
  intros Hhandlers Hrun.
  assert (Forall (λ r, is_Some (handler_map dm !! dialogue_state r)) (rules dm)) as Hinv.
  { assert (Forall (λ r, is_Some (handler_map DialogueManager_init !! dialogue_state r))
              (rules DialogueManager_init)) as Hstart by constructor.
    revert Hrun Hstart. generalize DialogueManager_init as dm0.
    induction Hhandlers as [|r regs [f Hf] _ IH]; intros dm0; simpl.
    - by intros [= <-].
    - destruct (add_dialogue_rule (reg_name r) (reg_handler r) (reg_kwargs r) dm0)
        as [[[]|e] dm1] eqn:Hadd; [|done].
      intros Hrun Hstart. apply (IH dm1 Hrun).
      apply add_dialogue_rule_success in Hadd as (n & rule & _ & Hinit & Hrules & Hmap).
      rewrite Hf in Hmap. rewrite Hrules, sort_by_key_perm, Hmap.
      apply Forall_app. split.
      + eapply Forall_impl; [exact Hstart|]. simpl. intros r' Hr'.
        by apply lookup_insert_is_Some'; right.
      + constructor; [|done]. apply init_attributes in Hinit as [-> _].
        rewrite lookup_insert_eq. by eexists. }
  split; [done|]. intros ctx n Hscan.
  pose proof (first_match_cases (rules dm) ctx) as Hcases. rewrite Hscan in Hcases.
  destruct Hcases as (before & r & after & Hrules & _ & _ & <-).
  rewrite Hrules, Forall_app, Forall_cons in Hinv. tauto.
Qed.

Lemma registered_states_have_handlers_witness :
  Forall (λ r, is_Some (handler_map three_registered !! dialogue_state r))
    (rules three_registered)
  ∧ ∀ ctx n, first_match (rules three_registered) ctx = Ok (Some n) →
             is_Some (handler_map three_registered !! n).
Proof.
  apply (registered_states_have_handlers three_registrations three_registered).
  - repeat constructor; by eexists.
  - reflexivity.
Defined.

(** X8.  A rule registered without a handler, under a name that has none,
    with keyword arguments that name no parameter of the call and that the
    constructor accepts, is in the rule list with no entry in the table: a
    context that selects it makes the dispatch raise [KeyError] for the
    name. *)
Theorem handlerless_rule_dispatch_raises (n : string) (kwargs : gmap string value)
    (rule : DialogueStateRule) (dm : DialogueManager) :
  call_clash kwargs = false →
  DialogueStateRule_init n kwargs = Ok rule →
  handler_map dm !! n = None →
  ∃ dm',
    add_dialogue_rule (Some n) None kwargs dm = (Ok tt, dm')
    ∧ handler_map dm' = handler_map dm
    ∧ In rule (rules dm')
    ∧ ∀ ctx, first_match (rules dm') ctx = Ok (Some n) →
             apply_handler ctx dm' = Raise (KeyError (VStr n)).
Proof.
  intros Hclash Hinit Hnone. unfold add_dialogue_rule. rewrite Hclash. simpl.
  rewrite Hinit.
  eexists. split; [done|]. simpl. split; [done|]. split.
  - apply list_elem_of_In. rewrite sort_by_key_perm. set_solver.
  - intros ctx Hscan. unfold apply_handler. simpl. rewrite Hscan. simpl.
    by rewrite Hnone.
Qed.

Lemma handlerless_rule_dispatch_raises_witness :
  ∃ dm',
    add_dialogue_rule (Some "greet") None ∅ DialogueManager_init = (Ok tt, dm')
    ∧ handler_map dm' = handler_map DialogueManager_init
    ∧ In greet_rule (rules dm')
    ∧ ∀ ctx, first_match (rules dm') ctx = Ok (Some "greet") →
             apply_handler ctx dm' = Raise (KeyError (VStr "greet")).
Proof.
  apply (handlerless_rule_dispatch_raises "greet" ∅ greet_rule DialogueManager_init);
    reflexivity.
Defined.

(** ** Registering again *)

Lemma sort_by_key_snoc {A} (key : A -> Z) (l : list A) (x : A) :
  Sorted (key_le key) l →
  ∃ l1 l2,
    l = l1 ++ l2
    ∧ sort_by_key key (l ++ [x]) = l1 ++ x :: l2
    ∧ Forall (λ y, key y ≤ key x) l1
    ∧ Forall (λ y, key x < key y) l2.
Proof.
  induction 1 as [|y l Hs IH Hhd]; simpl.
  - exists [], []. by repeat split.
  - destruct IH as (l1 & l2 & -> & -> & H1 & H2).
    destruct l1 as [|z l1]; simpl in *.
    + destruct (Z.leb_spec (key y) (key x)) as [Hle|Hgt].
      * exists [y], l2. repeat split; try done. by constructor.
      * exists [], (y :: l2). simpl. rewrite insert_by_key_head by done.
        repeat split; try done. by constructor.
    + inversion Hhd as [|? ? Hyz]; subst. unfold key_le in Hyz.
      destruct (Z.leb_spec (key y) (key z)) as [_|Hgt]; [|lia].
      exists (y :: z :: l1), l2. repeat split; try done.
      constructor; [|done]. apply Forall_cons in H1 as [Hz _]. lia.
Qed.

Lemma first_match_dup l1 l2 x ctx :
  In x l1 → first_match (l1 ++ x :: l2) ctx = first_match (l1 ++ l2) ctx.
Proof.
  intros Hin. rewrite !first_match_app.
  pose proof (first_match_cases l1 ctx) as Hcases.
  destruct (first_match l1 ctx) as [[n|]|e]; [done| |done].
  rewrite Forall_forall in Hcases. apply list_elem_of_In, Hcases in Hin.
  simpl. by rewrite Hin.
Qed.

(** X9.  Registering the same name, handler and specification a second
    time succeeds, leaves the handler table as it is and puts a second
    copy of the rule in the list; the copy changes the outcome of the scan
    and of the dispatch for no context. *)
Theorem registration_idempotent (name : option string) (h : option handler)
    (kwargs : gmap string value) (dm dm1 : DialogueManager) :
  add_dialogue_rule name h kwargs dm = (Ok tt, dm1) →
  ∃ dm2,
    add_dialogue_rule name h kwargs dm1 = (Ok tt, dm2)
    ∧ handler_map dm2 = handler_map dm1
    ∧ length (rules dm2) = S (length (rules dm1))
    ∧ (∀ ctx, first_match (rules dm2) ctx = first_match (rules dm1) ctx)
    ∧ (∀ ctx, apply_handler ctx dm2 = apply_handler ctx dm1).
Proof.
  intros Hfirst.
  assert (call_clash kwargs = false) as Hclash.
  { unfold add_dialogue_rule in Hfirst. by destruct (call_clash kwargs). }
  apply add_dialogue_rule_success in Hfirst
    as (n & rule & Hname & Hinit & Hrules & Hmap).
  assert (Sorted (key_le complexity) (rules dm1)) as Hsorted.
  { rewrite Hrules. apply sort_by_key_sorted. }
  assert (In rule (rules dm1)) as Hin.
  { apply list_elem_of_In. rewrite Hrules, sort_by_key_perm. set_solver. }
  destruct (sort_by_key_snoc complexity (rules dm1) rule Hsorted)
    as (l1 & l2 & Hsplit & Hsnoc & H1 & H2).
  assert (In rule l1) as Hin1.
  { rewrite Hsplit in Hin. apply in_app_iff in Hin as [|Hin]; [done|].
    rewrite Forall_forall in H2. apply list_elem_of_In, H2 in Hin. lia. }
  assert (∃ dm2, add_dialogue_rule name h kwargs dm1 = (Ok tt, dm2)
                 ∧ handler_map dm2 = handler_map dm1
                 ∧ rules dm2 = l1 ++ rule :: l2) as (dm2 & Hadd & Hmap2 & Hrules2).
  { unfold add_dialogue_rule. rewrite Hclash, Hname, Hinit. rewrite Hsnoc.
    destruct h as [f|]; simpl.
    - rewrite Hmap, lookup_insert_eq. unfold handler_ne. rewrite Nat.eqb_refl. simpl.
      eexists. split; [done|]. simpl. by rewrite insert_insert_eq.
    - by eexists. }
  assert (∀ ctx, first_match (rules dm2) ctx = first_match (rules dm1) ctx) as Hscan.
  { intros ctx. rewrite Hrules2, Hsplit. by apply first_match_dup. }
  exists dm2. split; [done|]. split; [done|]. split; [|split; [done|]].
  - rewrite Hrules2, Hsplit, !length_app. simpl. lia.
  - intros ctx. unfold apply_handler. by rewrite Hscan, Hmap2.
Qed.

Lemma registration_idempotent_witness :
  ∃ dm2,
    add_dialogue_rule (Some "greet") (Some (greeter 1)) ∅ greet_registered = (Ok tt, dm2)
    ∧ handler_map dm2 = handler_map greet_registered
    ∧ length (rules dm2) = S (length (rules greet_registered))
    ∧ (∀ ctx, first_match (rules dm2) ctx = first_match (rules greet_registered) ctx)
    ∧ (∀ ctx, apply_handler ctx dm2 = apply_handler ctx greet_registered).
Proof.
  apply (registration_idempotent (Some "greet") (Some (greeter 1)) ∅
           DialogueManager_init greet_registered). reflexivity.
Defined.

(** ** The rule list in closed form *)

Lemma filter_same_key_head {A} (key : A -> Z) x l :
  filter (λ a, key a = key x) (x :: l) = x :: filter (λ a, key a = key x) l.
Proof. by rewrite filter_cons_True. Qed.

Lemma stable_sorted_unique {A} (key : A -> Z) (l1 l2 : list A) :
  Sorted (key_le key) l1 → Sorted (key_le key) l2 →
  (∀ c, filter (λ a, key a = c) l1 = filter (λ a, key a = c) l2) →
  l1 = l2.
Proof.
  intros H1. revert l2. induction H1 as [|x l1 Hs1 IH Hhd1]; intros l2 H2 Hf.
  - destruct l2 as [|y l2]; [done|].
    specialize (Hf (key y)). rewrite filter_same_key_head in Hf. done.
  - destruct l2 as [|y l2].
    { specialize (Hf (key x)). rewrite filter_same_key_head in Hf. done. }
    assert (key y = key x) as Hkey.
    { destruct (decide (key y = key x)) as [|Hne]; [done|].
      assert (In y l1) as Hy.
      { pose proof (Hf (key y)) as Hfy.
        rewrite filter_same_key_head, filter_cons_False in Hfy by done.
        apply list_elem_of_In. eapply (list_elem_of_filter (λ a, key a = key y)).
        rewrite Hfy. by left. }
      assert (In x l2) as Hx.
      { pose proof (Hf (key x)) as Hfx.
        rewrite filter_same_key_head, filter_cons_False in Hfx by done.
        apply list_elem_of_In. eapply (list_elem_of_filter (λ a, key a = key x)).
        rewrite <- Hfx. by left. }
      pose proof (sorted_app_le key [] x l1 (Sorted_cons Hs1 Hhd1)) as Hle1.
      pose proof (sorted_app_le key [] y l2 H2) as Hle2.
      rewrite Forall_forall in Hle1, Hle2.
      apply list_elem_of_In, Hle1 in Hy. apply list_elem_of_In, Hle2 in Hx. lia. }
    assert (x = y) as ->.
    { pose proof (Hf (key x)) as Hfx. rewrite filter_same_key_head in Hfx.
      rewrite (filter_cons_True _ y) in Hfx by done. by injection Hfx. }
    f_equal. apply IH; [by apply Sorted_inv in H2 as [? _]|].
    intros c. specialize (Hf c). rewrite !filter_cons in Hf.
    destruct (decide (key y = c)); [by injection Hf|done].
Qed.

(** X10.  After a run of registrations that all succeed on a fresh
    manager, the rule list is the stable ascending sort, by complexity, of
    the rules the registrations constructed, taken in registration
    order. *)
Theorem rules_are_stable_sort (regs : list registration) (dm : DialogueManager) :
  register_all regs DialogueManager_init = (Ok tt, dm) →
  ∃ rs,
    Forall2 (λ r rule, registered_rule r = Ok rule) regs rs
    ∧ rules dm = sort_by_key complexity rs.
Proof.
  intros (rs & Hrs & Hsorted & _ & Hstable)%register_all_rules; [|constructor].
  exists rs. split; [done|].
  apply (stable_sorted_unique complexity); [done|apply sort_by_key_sorted|].
  intros c. rewrite sort_by_key_filter.
  rewrite <- (list_filter_iff (same_complexity c) _ (rules dm)) by done.
  rewrite <- (list_filter_iff (same_complexity c) _ rs) by done.
  apply Hstable.
Qed.

Lemma rules_are_stable_sort_witness :
  ∃ rs,
    Forall2 (λ r rule, registered_rule r = Ok rule) three_registrations rs
    ∧ rules three_registered = sort_by_key complexity rs.
Proof.
  apply (rules_are_stable_sort three_registrations three_registered). reflexivity.
Defined.

(** ** Construction and matching *)

(** X11.  The constructor raises, with [ValueError] or [TypeError],
    whenever [entity] or [entities] is among the keyword arguments,
    whatever its value.  A rule it returns has the given state name, the
    [domain] and [intent] arguments as its filters ([None] when not
    given), no entity filter, and a complexity of at most 3. *)
Theorem constructor_refuses_entities (name : string) (kwargs : gmap string value) :
  (is_Some (kwargs !! "entity") ∨ is_Some (kwargs !! "entities") →
     ∃ e, DialogueStateRule_init name kwargs = Raise e
          ∧ (e = ValueError ∨ e = TypeError))
  ∧ (∀ rule, DialogueStateRule_init name kwargs = Ok rule →
       rule = named_rule name (default VNone (kwargs !! "domain"))
                (default VNone (kwargs !! "intent"))
       ∧ 0 ≤ complexity rule ≤ 3).
Proof.
  split.
  - intros Hgiven.
    destruct (DialogueStateRule_init name kwargs) as [rule|e] eqn:Hinit.
    + apply init_no_entity_filter in Hinit as (_ & _ & He & Hes).
      rewrite He, Hes in Hgiven. by destruct Hgiven as [[]|[]].
    + exists e. split; [done|]. by eapply init_error.
  - intros rule Hinit.
    pose proof (init_no_entity_filter _ _ _ Hinit) as (Ht & Hm & _).
    pose proof (init_attributes _ _ _ Hinit) as (Hn & Hd & Hi).
    assert (rule = named_rule name (default VNone (kwargs !! "domain"))
                     (default VNone (kwargs !! "intent"))) as ->.
    { destruct rule; simpl in *. unfold named_rule. congruence. }
    split; [done|]. rewrite complexity_counted. unfold counted, flag; simpl.
    destruct (truthy _), (truthy _); simpl; lia.
Qed.

Lemma constructor_refuses_entities_witness :
  ∃ e, DialogueStateRule_init "state" {[ "entity" := VStr "city" ]} = Raise e
       ∧ (e = ValueError ∨ e = TypeError).
Proof.
  apply (constructor_refuses_entities "state" {[ "entity" := VStr "city" ]}).
  left. by eexists.
Defined.

Lemma apply_domain_intent r ctx d i :
  entity_types r = None → entity_mappings r = None →
  getitem ctx "domain" = Ok d → getitem ctx "intent" = Ok i →
  apply r ctx = Ok (filter_ok (domain r) d && filter_ok (intent r) i).
Proof.
  intros Ht Hm Hd Hi.
  unfold apply, check_entity_types, check_entity_mappings, filter_ok, py_ne.
  rewrite Ht, Hm, Hd, Hi.
  destruct (is_none (domain r)), (is_none (intent r)); simpl;
    by repeat (destruct (py_eq _ _); simpl).
Qed.

(** X12.  On a manager built by registrations and a context that has a
    domain and an intent, the scan does not raise: it selects the state of
    the first rule in the list whose domain filter and intent filter are
    each unset or equal to the context's value, and none when there is no
    such rule. *)
Theorem selection_by_domain_and_intent (regs : list registration)
    (dm : DialogueManager) (ctx d i : value) :
  register_all regs DialogueManager_init = (Ok tt, dm) →
  getitem ctx "domain" = Ok d →
  getitem ctx "intent" = Ok i →
  first_match (rules dm) ctx
  = Ok (option_map dialogue_state
          (List.find (λ r, filter_ok (domain r) d && filter_ok (intent r) i)
             (rules dm))).
Proof.
  intros Hrun Hd Hi. pose proof (registered_rules_constructed regs dm Hrun) as Hall.
  induction Hall as [|r rs [Ht Hm] _ IH]; simpl; [done|].
  rewrite (apply_domain_intent r ctx d i Ht Hm Hd Hi). simpl.
  by destruct (filter_ok (domain r) d && filter_ok (intent r) i).
Qed.

Lemma selection_by_domain_and_intent_witness :
  first_match (rules three_registered) (context "weather" "alerts" [entity "city" "Paris"])
  = Ok (Some "general").
Proof.
  apply (selection_by_domain_and_intent three_registrations three_registered
           (context "weather" "alerts" [entity "city" "Paris"])
           (VStr "weather") (VStr "alerts")); reflexivity.
Defined.

(** X13.  A rule with a domain filter reads the context's domain first.
    On a dictionary without the key it raises [KeyError] for "domain"; on
    a context that is no dictionary it raises [TypeError]; and on a domain
    that differs from the filter it returns [False] without reading
    anything else of the context. *)
Theorem domain_filter_reads_domain (r : DialogueStateRule) :
  is_none (domain r) = false →
  (∀ kv, dict_get kv (VStr "domain") = None →
         apply r (VDict kv) = Raise (KeyError (VStr "domain")))
  ∧ (∀ ctx, (∀ kv, ctx ≠ VDict kv ∧ ctx ≠ VAttrDict kv) →
            apply r ctx = Raise TypeError)
  ∧ (∀ ctx d, getitem ctx "domain" = Ok d → py_eq (domain r) d = false →
              apply r ctx = Ok false).
Proof.
  intros Hd. unfold apply. rewrite Hd. split; [|split].
  - intros kv Hkv. simpl. unfold dict_getitem. simpl. by rewrite Hkv.
  - intros ctx Hctx. destruct ctx; try done; by destruct (Hctx items).
  - intros ctx d Hget Hne. rewrite Hget. simpl. unfold py_ne. by rewrite Hne.
Qed.

Lemma domain_filter_reads_domain_witness :
  apply (named_rule "general" (VStr "weather") VNone) (VDict [])
  = Raise (KeyError (VStr "domain"))
  ∧ apply (named_rule "general" (VStr "weather") VNone) VNone = Raise TypeError
  ∧ apply (named_rule "general" (VStr "weather") VNone)
      (VDict [(VStr "domain", VStr "sports")]) = Ok false.
Proof.
  destruct (domain_filter_reads_domain (named_rule "general" (VStr "weather") VNone))
    as (Hmissing & Htype & Hdiffers); [reflexivity|].
  split; [by apply Hmissing|]. split; [by apply Htype|].
  by apply (Hdiffers _ (VStr "sports")).
Defined.

(** ** Responder calls *)

Section ResponderCalls.
Context `{Builtins}.

Lemma str_format_plain s slots : brace_free s = true → str_format s slots = Ok s.
Proof.
  intros Hs. unfold str_format. rewrite <- (append_empty_r s) at 1.
  rewrite parse_format_literal by done. rewrite render_literal. simpl.
  by rewrite string_of_list_ascii_of_string, append_empty_r.
Qed.

Lemma str_format_missing pre key rest slots :
  brace_free pre = true → plain_name key = true → slots !! key = None →
  str_format (pre +:+ String "{" (key +:+ String "}" rest)) slots
  = Raise (KeyError (VStr key)).
Proof.
  intros Hpre Hkey Hslot. unfold str_format.
  rewrite parse_format_placeholder by done.
  apply render_first_missing; [|done].
  induction (list_ascii_of_string pre); by constructor.
Qed.

Lemma run_call_outcome c self :
  match run_call c self with
  | (Ok _, self') =>
      slots self' = slots self
      ∧ ∃ action, client_actions self' = client_actions self ++ [action]
  | (Raise _, self') => self' = self
  end.
Proof.
  destruct c as [draw text|draw text|action|things]; simpl;
    unfold reply, prompt, _reply, respond, show.
  1,2: destruct (_choose draw text) as [chosen|]; [|done];
       destruct (format chosen (slots self)); [|done]; simpl; eauto.
  - simpl. eauto.
  - done.
Qed.

(** X14.  A run of calls on a responder ([reply], [prompt], [respond],
    [show]) never changes the slots and never removes or reorders an
    action.  The run returns the calls of [cs] up to the first one that
    raises: the actions afterwards are the actions before followed by
    exactly one new action for each of those calls, the responder is the
    one those calls leave, and the call that raised, run on that responder,
    leaves it as it is.  [respond] appends its argument as it is, and
    [show] always raises. *)
Theorem responder_calls_append_only (cs : list responder_call)
    (self self' : DialogueResponder) (out : result unit) :
  run_calls cs self = (out, self') →
  slots self' = slots self
  ∧ (∃ returned added,
       client_actions self' = client_actions self ++ added
       ∧ length added = length returned
       ∧ run_calls returned self = (Ok tt, self')
       ∧ match out with
         | Ok _ => returned = cs
         | Raise e =>
             ∃ c after, cs = returned ++ c :: after
                        ∧ run_call c self' = (Raise e, self')
         end)
  ∧ (∀ actions,
       run_calls (map CallRespond actions) self
       = (Ok tt, {| slots := slots self;
                    client_actions := client_actions self ++ actions |}))
  ∧ (∀ things, run_calls (CallShow things :: cs) self = (Raise NotImplementedError, self)).
Proof.
  intros Hrun. split; [|split; [|split]].
  - revert self Hrun. induction cs as [|c cs IH]; intros self; simpl.
    + by intros [= _ <-].
    + pose proof (run_call_outcome c self) as Hc.
      destruct (run_call c self) as [[[]|e] self1].
      * destruct Hc as [Hslots _]. intros Hrun. by rewrite (IH _ Hrun).
      * intros [= _ <-]. by rewrite Hc.
  - revert self Hrun. induction cs as [|c cs IH]; intros self; simpl.
    + intros [= <- <-]. exists [], []. by rewrite app_nil_r.
    + pose proof (run_call_outcome c self) as Hc.
      destruct (run_call c self) as [[[]|e] self1] eqn:Hcall.
      * destruct Hc as [_ [action Hc]]. intros Hrun.
        destruct (IH _ Hrun) as (returned & added & Hadded & Hlen & Hret & Hout).
        exists (c :: returned), (action :: added).
        rewrite Hadded, Hc, <- app_assoc. simpl. rewrite Hcall, Hlen.
        repeat split; try done.
        destruct out as [[]|e]; [by rewrite Hout|].
        destruct Hout as (c' & after & -> & Hc').
        by exists c', after.
      * intros [= <- <-]. subst self1. exists [], []. rewrite app_nil_r.
        repeat split; try done. by exists c, cs.
  - clear. intros actions. revert self.
    induction actions as [|a actions IH]; intros self; simpl.
    + rewrite app_nil_r. by destruct self.
    + rewrite IH. simpl. by rewrite <- app_assoc.
  - done.
Qed.

(** X15.  [reply] and [prompt] on a text without braces append that text
    as it is, whatever the slots hold. *)
Theorem plain_text_verbatim (draw : nat) (s : string) (self : DialogueResponder) :
  brace_free s = true →
  reply draw (VStr s) self = (Ok tt, appended self (client_action "show-reply" s))
  ∧ prompt draw (VStr s) self = (Ok tt, appended self (client_action "show-prompt" s)).
Proof.
  intros Hs. unfold reply, prompt, _reply. simpl.
  by rewrite (str_format_plain s (slots self) Hs).
Qed.

(** X16.  The text [_choose] settles on must be a string to be formatted.
    A frozenset is not chosen from, so [reply] and [prompt] on one raise
    [AttributeError], as they do on [None], a number or a dictionary, and
    on a collection whose drawn element is not a string; nothing is
    appended. *)
Theorem non_string_text_raises (draw : nat) (text chosen : value)
    (self : DialogueResponder) :
  _choose draw text = Ok chosen →
  (∀ s, chosen ≠ VStr s) →
  (∀ kv, chosen ≠ VAttrDict kv) →
  reply draw text self = (Raise AttributeError, self)
  ∧ prompt draw text self = (Raise AttributeError, self)
  ∧ ∀ items, reply draw (VFrozenset items) self = (Raise AttributeError, self).
Proof.
  intros Hchoose Hstr Hattr. unfold reply, prompt, _reply. rewrite Hchoose.
  repeat split.
  all: destruct chosen; simpl; try done.
  all: try (by edestruct Hstr).
  all: by edestruct Hattr.
Qed.

(** X17.  A dispatch hands the handler empty slots.  When the selected
    handler replies with a text that has a field [{key}] after text
    without braces, and has put nothing in the slots, the dispatch raises
    [KeyError] for the key and returns no response. *)
Theorem dispatch_slots_start_empty (dm : DialogueManager) (ctx : value)
    (n : string) (h : handler) (draw : nat) (pre key rest : string) :
  first_match (rules dm) ctx = Ok (Some n) →
  handler_map dm !! n = Some h →
  h_params h = 3%nat →
  h_body h ctx (DialogueResponder_init ∅)
  = reply draw (VStr (pre +:+ String "{" (key +:+ String "}" rest)))
      (DialogueResponder_init ∅) →
  brace_free pre = true →
  plain_name key = true →
  apply_handler ctx dm = Raise (KeyError (VStr key)).
Proof.
  intros Hscan Hh Hparams Hbody Hpre Hkey.
  unfold apply_handler. rewrite Hscan. simpl. rewrite Hh. simpl.
  unfold call_handler. rewrite Hparams. simpl. rewrite Hbody.
  unfold reply, _reply. simpl.
  by rewrite (str_format_missing pre key rest ∅ Hpre Hkey).
Qed.

End ResponderCalls.

(** Four calls of which the third raises: the two actions of the first
    two calls are there, and the fourth call is not made. *)
Lemma responder_calls_append_only_witness :
  slots (snd (@run_calls plain_builtins three_calls (DialogueResponder_init ana))) = ana
  ∧ ∃ returned added,
      client_actions
        (snd (@run_calls plain_builtins three_calls (DialogueResponder_init ana)))
      = [] ++ added
      ∧ length added = length returned
      ∧ @run_calls plain_builtins returned (DialogueResponder_init ana)
        = (Ok tt, snd (@run_calls plain_builtins three_calls (DialogueResponder_init ana)))
      ∧ ∃ c after,
          three_calls = returned ++ c :: after
          ∧ @run_call plain_builtins c
              (snd (@run_calls plain_builtins three_calls (DialogueResponder_init ana)))
            = (Raise NotImplementedError,
               snd (@run_calls plain_builtins three_calls (DialogueResponder_init ana))).
Proof.
  destruct (@responder_calls_append_only plain_builtins three_calls
              (DialogueResponder_init ana)
              (snd (@run_calls plain_builtins three_calls (DialogueResponder_init ana)))
              (Raise NotImplementedError) eq_refl)
    as (Hslots & Hadded & _).
  split; [exact Hslots|exact Hadded].
Defined.

Lemma plain_text_verbatim_witness :
  @reply plain_builtins 0 (VStr "See you, Ana") (DialogueResponder_init ∅)
  = (Ok tt, appended (DialogueResponder_init ∅)
              (client_action "show-reply" "See you, Ana"))
  ∧ @prompt plain_builtins 0 (VStr "See you, Ana") (DialogueResponder_init ∅)
    = (Ok tt, appended (DialogueResponder_init ∅)
                (client_action "show-prompt" "See you, Ana")).
Proof.
  apply (@plain_text_verbatim plain_builtins 0 "See you, Ana" (DialogueResponder_init ∅)).
  reflexivity.
Defined.

Lemma non_string_text_raises_witness :
  @reply plain_builtins 0 (VList [VInt 3]) (DialogueResponder_init ana)
  = (Raise AttributeError, DialogueResponder_init ana)
  ∧ @prompt plain_builtins 0 (VList [VInt 3]) (DialogueResponder_init ana)
    = (Raise AttributeError, DialogueResponder_init ana)
  ∧ ∀ items, @reply plain_builtins 0 (VFrozenset items) (DialogueResponder_init ana)
             = (Raise AttributeError, DialogueResponder_init ana).
Proof.
  apply (@non_string_text_raises plain_builtins 0 (VList [VInt 3]) (VInt 3)
           (DialogueResponder_init ana)); [reflexivity|discriminate..].
Defined.

Lemma dispatch_slots_start_empty_witness :
  apply_handler weather_forecast asks_registered = Raise (KeyError (VStr "name")).
Proof.
  apply (@dispatch_slots_start_empty plain_builtins asks_registered weather_forecast
           "ask" asks_name 0 "Hi " "name" ""); reflexivity.
Defined.

(** ** Rule equality *)

Lemma value_nested_ind (P : value → Prop) :
  P VNone → (∀ n, P (VInt n)) → (∀ s, P (VStr s)) →
  (∀ l, Forall P l → P (VTuple l)) →
  (∀ l, Forall P l → P (VList l)) →
  (∀ l, Forall P l → P (VSet l)) →
  (∀ l, Forall P l → P (VFrozenset l)) →
  (∀ kv, Forall (λ p, P p.1 ∧ P p.2) kv → P (VDict kv)) →
  (∀ kv, Forall (λ p, P p.1 ∧ P p.2) kv → P (VAttrDict kv)) →
  ∀ v, P v.
Proof.
  intros HNone HInt HStr HTuple HList HSet HFrozen HDict HAttr.
  fix IH 1. intros [| | |l|l|l|l|kv|kv].
  - exact HNone.
  - apply HInt.
  - apply HStr.
  - apply HTuple. induction l as [|x l IHl]; constructor; [apply IH|exact IHl].
  - apply HList. induction l as [|x l IHl]; constructor; [apply IH|exact IHl].
  - apply HSet. induction l as [|x l IHl]; constructor; [apply IH|exact IHl].
  - apply HFrozen. induction l as [|x l IHl]; constructor; [apply IH|exact IHl].
  - apply HDict. induction kv as [|[k v] kv IHkv]; constructor;
      [split; apply IH|exact IHkv].
  - apply HAttr. induction kv as [|[k v] kv IHkv]; constructor;
      [split; apply IH|exact IHkv].
Qed.

Lemma seq_eqb_refl {A} (eq : A → A → bool) l :
  Forall (λ x, eq x x = true) l → seq_eqb eq l l = true.
Proof. induction 1 as [|x l Hx _ IH]; simpl; [done|]. by rewrite Hx, IH. Qed.

Lemma existsb_self {A} (f : A → A → bool) x l :
  In x l → f x x = true → existsb (f x) l = true.
Proof. intros Hin Hx. apply existsb_exists. by exists x. Qed.

Lemma set_eqb_refl {A} (eq : A → A → bool) l :
  Forall (λ x, eq x x = true) l → set_eqb eq l l = true.
Proof.
  intros Hl. unfold set_eqb. rewrite Forall_forall in Hl.
  apply andb_true_intro. split; apply forallb_forall; intros x Hx.
  - apply existsb_exists. exists x. split; [done|]. by apply Hl, list_elem_of_In.
  - apply existsb_exists. exists x. split; [done|]. by apply Hl, list_elem_of_In.
Qed.

Lemma dict_eqb_refl {A} (eq : A → A → bool) (l : list (A * A)) :
  Forall (λ p, eq p.1 p.1 = true ∧ eq p.2 p.2 = true) l → dict_eqb eq l l = true.
Proof.
  intros Hl. unfold dict_eqb. rewrite Nat.eqb_refl. simpl.
  rewrite Forall_forall in Hl.
  apply forallb_forall. intros p Hp. apply existsb_exists. exists p. split; [done|].
  destruct (Hl p) as [-> ->]; [by apply list_elem_of_In|done].
Qed.

Lemma py_eq_refl v : py_eq v v = true.
Proof.
  induction v using value_nested_ind; simpl.
  - done.
  - apply Z.eqb_refl.
  - apply String.eqb_refl.
  - by apply seq_eqb_refl.
  - by apply seq_eqb_refl.
  - by apply set_eqb_refl.
  - by apply set_eqb_refl.
  - by apply dict_eqb_refl.
  - by apply dict_eqb_refl.
Qed.

Lemma set_eqb_empty {A} (eq : A → A → bool) l m :
  set_eqb eq l m = true → is_empty l = is_empty m.
Proof.
  unfold set_eqb. by destruct l as [|x l], m as [|y m].
Qed.

Lemma seq_eqb_empty {A} (eq : A → A → bool) l m :
  seq_eqb eq l m = true → is_empty l = is_empty m.
Proof. by destruct l, m. Qed.

Lemma dict_eqb_empty {A} (eq : A → A → bool) (l m : list (A * A)) :
  dict_eqb eq l m = true → is_empty l = is_empty m.
Proof. unfold dict_eqb. by destruct l, m. Qed.

Lemma py_eq_truthy a b : py_eq a b = true → truthy a = truthy b.
Proof.
  destruct a, b; simpl; try done; intros Heq;
    first [ by apply Z.eqb_eq in Heq as ->
          | by apply String.eqb_eq in Heq as ->
          | by rewrite (seq_eqb_empty _ _ _ Heq)
          | by rewrite (set_eqb_empty _ _ _ Heq)
          | by rewrite (dict_eqb_empty _ _ _ Heq) ].
Qed.

(** X18.  Rule equality compares the five attributes.  Every rule equals
    itself, and [!=] between rules is the negation of [==]; rules that are
    equal have the same state name and the same complexity, so equal rules
    sort alike; and against an operand that is no rule [__eq__] gives
    [NotImplemented] and [__ne__] gives [False]. *)
Theorem rule_equality (self : DialogueStateRule) :
  __eq__ self (ORule self) = Compared true
  ∧ (∀ other, __ne__ self (ORule other) = negb (dict_eq self other))
  ∧ (∀ other, __eq__ self (ORule other) = Compared true →
       dialogue_state self = dialogue_state other
       ∧ complexity self = complexity other)
  ∧ (∀ v, __eq__ self (OValue v) = NotImplemented ∧ __ne__ self (OValue v) = false).
Proof.
  split; [|split; [done|split; [|done]]].
  - simpl. f_equal. unfold dict_eq. rewrite String.eqb_refl, !py_eq_refl. simpl.
    destruct (entity_types self) as [s|], (entity_mappings self) as [kv|]; simpl;
      rewrite ?andb_true_r; try done.
    + rewrite set_eqb_refl, dict_eqb_refl; [done|..];
        apply Forall_forall; intros; rewrite ?py_eq_refl; done.
    + apply set_eqb_refl, Forall_forall. intros. apply py_eq_refl.
    + apply dict_eqb_refl, Forall_forall. intros. by rewrite !py_eq_refl.
  - intros other [= Heq]. unfold dict_eq in Heq.
    apply andb_prop in Heq as [[[[Hn Hd]%andb_prop Hi]%andb_prop Ht]%andb_prop Hm].
    apply String.eqb_eq in Hn. split; [done|].
    unfold complexity. rewrite (py_eq_truthy _ _ Hd), (py_eq_truthy _ _ Hi).
    destruct (entity_types self) as [s|], (entity_types other) as [s'|]; try done;
      destruct (entity_mappings self) as [kv|], (entity_mappings other) as [kv'|];
      try done; simpl in Ht, Hm;
      rewrite ?(set_eqb_empty _ _ _ Ht), ?(dict_eqb_empty _ _ _ Hm); done.
Qed.

(** ** Entity filters on dictionaries *)

Lemma match_entities_plain mappings es :
  Forall (λ e, ∃ kv, e = VDict kv) es →
  match_entities mappings es [] = Ok [] ∨ ∃ e, match_entities mappings es [] = Raise e.
Proof.
  induction 1 as [|entity es [kv ->] _ IH]; simpl; [by left|].
  destruct (dict_getitem kv (VStr "type")) as [t|e]; simpl; [|eauto].
  destruct (dict_contains mappings t) as [[]|e]; simpl; [| |eauto].
  - destruct (dict_getitem kv (VStr "value")) as [v|e]; simpl; eauto.
  - exact IH.
Qed.

Lemma match_entities_dicts mappings es :
  Forall dict_entity es →
  match_entities mappings es []
  = if existsb (names_mapped_type mappings) es then Raise AttributeError else Ok [].
Proof.
  induction 1 as [|entity es (kv & t & v & -> & Ht & Hv) _ IH]; [done|].
  cbn [match_entities existsb]. unfold names_mapped_type at 1.
  unfold getitem, dict_getitem, dict_contains. simpl hashable. cbv iota.
  rewrite Ht. step_bind. simpl hashable. cbv iota.
  destruct (dict_get mappings (VStr t)); step_bind; cbv iota.
  - rewrite Hv. done.
  - exact IH.
Qed.

Lemma set_update_hashable acc xs :
  Forall (λ x, hashable x = true) xs → ∃ acc', set_update acc xs = Ok acc'.
Proof.
  intros Hxs. revert acc. induction Hxs as [|x xs Hx _ IH]; intros acc; simpl.
  - by eexists.
  - unfold set_add. rewrite Hx. simpl. apply IH.
Qed.

Lemma collect_types_dicts es acc :
  Forall dict_entity es → ∃ acc', collect_types es acc = Ok acc'.
Proof.
  intros Hes. revert acc.
  induction Hes as [|entity es (kv & t & v & -> & Ht & Hv) _ IH]; intros acc.
  - by eexists.
  - cbn [collect_types]. unfold getitem, dict_getitem. simpl hashable. cbv iota.
    rewrite Ht. step_bind. simpl py_iter. step_bind.
    destruct (set_update_hashable acc
                (map (λ c, VStr (String c EmptyString)) (list_ascii_of_string t)))
      as [acc' ->].
    { apply Forall_forall. intros x Hx. apply list_elem_of_In, in_map_iff in Hx.
      by destruct Hx as (c & <- & _). }
    step_bind. apply IH.
Qed.

Lemma apply_after_filters r ctx d i :
  getitem ctx "domain" = Ok d → getitem ctx "intent" = Ok i →
  filter_ok (domain r) d = true → filter_ok (intent r) i = true →
  apply r ctx
  = (types_ok ← check_entity_types r ctx;
     if (types_ok : bool) then check_entity_mappings r ctx else Ok false).
Proof.
  intros Hd Hi Hfd Hfi. unfold apply, filter_ok, py_ne in *. rewrite Hd, Hi.
  destruct (is_none (domain r)), (is_none (intent r)); simpl in *;
    by rewrite ?Hfd, ?Hfi.
Qed.

(** X19.  What an entity filter does on dictionaries.  Take a context that
    is a plain dictionary, passes the rule's domain and intent checks, and
    holds entities that are plain dictionaries with a string type and a
    value.  A rule with an entity-type filter raises [AttributeError] on
    it, for want of [context.entity_types].  A rule with an entity-value
    filter only raises [AttributeError] when some entity has a type the
    filter names, for want of [entity.type], and otherwise returns [False]
    (or [True] when the filter is the empty mapping).  Whatever the
    context holds, a rule with an entity-type filter never returns [True]
    on a plain dictionary, nor does one with a non-empty entity-value
    filter when the entities are plain dictionaries. *)
Theorem entity_filters_never_match_dicts (r : DialogueStateRule) (ctx : value) :
  (∀ kv d i ents es wanted,
     ctx = VDict kv →
     getitem ctx "domain" = Ok d → getitem ctx "intent" = Ok i →
     filter_ok (domain r) d = true → filter_ok (intent r) i = true →
     getitem ctx "entities" = Ok ents → py_iter ents = Ok es →
     Forall dict_entity es →
     entity_types r = Some wanted →
     apply r ctx = Raise AttributeError)
  ∧ (∀ d i ents es mappings,
       getitem ctx "domain" = Ok d → getitem ctx "intent" = Ok i →
       filter_ok (domain r) d = true → filter_ok (intent r) i = true →
       getitem ctx "entities" = Ok ents → py_iter ents = Ok es →
       Forall dict_entity es →
       entity_types r = None → entity_mappings r = Some mappings →
       apply r ctx
       = if existsb (names_mapped_type mappings) es
         then Raise AttributeError
         else Ok (is_empty mappings))
  ∧ (∀ wanted kv, entity_types r = Some wanted → ctx = VDict kv →
                  apply r ctx ≠ Ok true)
  ∧ (∀ mappings ents es,
       entity_mappings r = Some mappings → mappings ≠ [] →
       getitem ctx "entities" = Ok ents → py_iter ents = Ok es →
       Forall (λ e, ∃ kv, e = VDict kv) es →
       apply r ctx ≠ Ok true).
Proof.
  split; [|split; [|split]].
  - intros kv d i ents es wanted -> Hd Hi Hfd Hfi Hents Hes Hwf Ht.
    rewrite (apply_after_filters _ _ d i Hd Hi Hfd Hfi).
    unfold check_entity_types. rewrite Ht, Hents. step_bind. rewrite Hes. step_bind.
    destruct (collect_types_dicts es [] Hwf) as [acc ->]. done.
  - intros d i ents es mappings Hd Hi Hfd Hfi Hents Hes Hwf Ht Hm.
    rewrite (apply_after_filters _ _ d i Hd Hi Hfd Hfi).
    unfold check_entity_types, check_entity_mappings. rewrite Ht, Hm. step_bind.
    rewrite Hents. step_bind. rewrite Hes. step_bind.
    rewrite (match_entities_dicts mappings es Hwf).
    destruct (existsb (names_mapped_type mappings) es); [done|].
    by destruct mappings.
  - intros wanted kv Ht ->. by eapply entity_types_plain_context.
  - intros mappings ents es Hm Hne Hents Hes Hplain Happly.
    unfold apply in Happly.
    apply bind_Ok in Happly as ([] & _ & Happly); [done|].
    apply bind_Ok in Happly as ([] & _ & Happly); [done|].
    apply bind_Ok in Happly as ([] & _ & Happly); [|done].
    unfold check_entity_mappings in Happly. rewrite Hm, Hents in Happly.
    step_bind. simpl in Happly. rewrite Hes in Happly. simpl in Happly.
    destruct (match_entities_plain mappings es Hplain) as [Hnone|[e He]].
    + rewrite Hnone in Happly. simpl in Happly. by destruct mappings.
    + by rewrite He in Happly.
Qed.

(** The rule for the city Paris: an entity of type city raises, a date
    alone gives [False]; the rule for city and date raises. *)
Lemma entity_filters_never_match_dicts_witness :
  apply city_is_paris
    (context "travel" "book" [entity "date" "today"; entity "city" "Paris"])
  = Raise AttributeError
  ∧ apply city_is_paris (context "travel" "book" [entity "date" "today"]) = Ok false
  ∧ apply city_and_date
      (context "travel" "book" [entity "date" "today"; entity "city" "Paris"])
    = Raise AttributeError.
Proof.
  assert (∀ ty val, dict_entity (entity ty val)) as Hentity.
  { intros ty val. by exists [(VStr "type", VStr ty); (VStr "value", VStr val)], ty, (VStr val). }
  split; [|split].
  - refine (proj1 (proj2 (entity_filters_never_match_dicts city_is_paris
                            (context "travel" "book"
                               [entity "date" "today"; entity "city" "Paris"])))
              (VStr "travel") (VStr "book")
              (VList [entity "date" "today"; entity "city" "Paris"])
              [entity "date" "today"; entity "city" "Paris"]
              [(VStr "city", VStr "Paris")] _ _ _ _ _ _ _ _ _); try reflexivity.
    repeat constructor; apply Hentity.
  - refine (proj1 (proj2 (entity_filters_never_match_dicts city_is_paris
                            (context "travel" "book" [entity "date" "today"])))
              (VStr "travel") (VStr "book")
              (VList [entity "date" "today"]) [entity "date" "today"]
              [(VStr "city", VStr "Paris")] _ _ _ _ _ _ _ _ _); try reflexivity.
    repeat constructor; apply Hentity.
  - refine (proj1 (entity_filters_never_match_dicts city_and_date
                     (context "travel" "book"
                        [entity "date" "today"; entity "city" "Paris"]))
              _ (VStr "travel") (VStr "book")
              (VList [entity "date" "today"; entity "city" "Paris"])
              [entity "date" "today"; entity "city" "Paris"]
              [VStr "city"; VStr "date"] _ _ _ _ _ _ _ _ _); try reflexivity.
    repeat constructor; apply Hentity.
Defined.
